(** * stylelens: the round-robin runner pool and the style pipeline

    A shallow embedding of [stylepipeline.py]: the [Halt] sentinel, the three
    loops of [round_robin_model_runners] ([model_run], [push_run],
    [pull_run]), [StyleRunner] with [load], [encode_frame] and [apply], the
    image loader and the start-up part of [main].

    Conventions of the embedding.
    - A thread's loop is a function of the sequence of results its queue
      polls return: [None] is a [queue.Empty] time-out, [Some x] a dequeued
      item.  A loop that has consumed all the polls it was given and has
      neither left the loop nor raised is still [Polling].
    - A queue written by a loop is the list of the items put on it, oldest
      first.  The worker queues are created by [queue.Queue()], unbounded,
      so a [put] never blocks.
    - A raised Python exception is a value [Raise e]; it ends the loop that
      does not catch it.
    - Tensor contents and the network modules are opaque: a tensor carries
      its device, its shape and a payload of an abstract type; a module is
      a function on tensors.  Calls of the modules are recorded in a call
      log, which plays the role of a call counter. *)

From stdpp Require Import base option list gmap strings sorting.
From Stdlib Require Import QArith.

#[local] Open Scope string_scope.
#[local] Open Scope list_scope.
#[local] Open Scope nat_scope.

(** ** Python exceptions and results *)

Inductive exn : Type :=
  | TypeError
  | AttributeError
  | ValueError
  | IndexError
  | KeyError
  | QueueEmpty.          (* [queue.Empty] *)

Inductive result (A : Type) : Type :=
  | Ok (a : A)
  | Raise (e : exn).
Arguments Ok {A} a.
Arguments Raise {A} e.

(** How a [while] loop stands after the polls it was given. *)
Inductive LoopStatus : Type :=
  | Polling              (* still inside the loop, waiting on its queue *)
  | Finished             (* left the loop: [break], or the condition failed *)
  | Raised (e : exn).    (* an exception left the loop *)

(** ** Tensors and devices *)

(** [torch.device(name)], identified with its name. *)
Definition Device : Type := string.

Set Implicit Arguments.

Section Model.

Variable Data : Type.

Record Tensor : Type := mkTensor {
  t_device : Device;
  t_shape : list nat;
  t_data : Data
}.

(** [torch.as_tensor(t, device=d)]: [t] itself when it is on [d] already,
    otherwise a copy of [t] on [d]. *)
Definition as_tensor (t : Tensor) (d : Device) : Tensor :=
  if decide (t_device t = d) then t
  else mkTensor d (t_shape t) (t_data t).

(** [t.detach()]: the same values, cut from the autograd graph. *)
Definition detach (t : Tensor) : Tensor := t.

(** [t.unsqueeze(0)]: a leading dimension of size one. *)
Definition unsqueeze0 (t : Tensor) : Tensor :=
  mkTensor (t_device t) (1 :: t_shape t) (t_data t).

(** [t.squeeze()]: every dimension of size one is dropped. *)
Definition squeeze (t : Tensor) : Tensor :=
  mkTensor (t_device t) (filter (λ n, n ≠ 1) (t_shape t)) (t_data t).

(** ** EncodedFrame *)

(** batch[1] encoded e4/e5 pair *)
Record EncodedFrame : Type := mkEncodedFrame {
  e4 : Tensor;
  e5 : Tensor
}.

(** [EncodedFrameOrTensor = Union[EncodedFrame, torch.Tensor]] *)
Inductive EncodedFrameOrTensor : Type :=
  | Frame (f : EncodedFrame)
  | Raw (t : Tensor).

(** ** The call log and the monad of the runner code *)

Inductive Call : Type :=
  | call_enc_1_to_4 (x : Tensor)
  | call_enc_5 (x : Tensor)
  | call_transform (a b c d : Tensor)
  | call_decoder (x : Tensor).

(** Encoder calls, the ones a call counter on the encoder stage counts. *)
Definition is_encoder_call (c : Call) : bool :=
  match c with
  | call_enc_1_to_4 _ | call_enc_5 _ => true
  | _ => false
  end.

Definition encoder_calls (log : list Call) : nat :=
  length (filter (λ c, is_encoder_call c = true) log).

(** State (the call log) and exceptions. *)
Definition M (A : Type) : Type := list Call → result A * list Call.

#[global] Instance M_ret : MRet M := λ A a log, (Ok a, log).

#[global] Instance M_bind : MBind M := λ A B f m log,
  match m log with
  | (Ok a, log') => f a log'
  | (Raise e, log') => (Raise e, log')
  end.

Definition raise {A : Type} (e : exn) : M A := λ log, (Raise e, log).

(** ** StyleRunner *)

Definition Layer : Type := Tensor → Tensor.

(** [nn.Sequential] of a list of layers: the layers applied in order. *)
Definition Sequential (layers : list Layer) : Layer :=
  λ x, foldl (λ acc layer, layer acc) x layers.

(** The imported module [style_model] with the checkpoints given to
    [load_state_dict]; it is not part of the sources and is a parameter. *)
Record StyleModel : Type := mkStyleModel {
  make_vgg : list Layer;            (* [list(make_vgg().children())] *)
  Transform : Tensor → Tensor → Tensor → Tensor → Tensor;
  make_decoder : Layer
}.

Record StyleRunner : Type := mkStyleRunner {
  device : Device;
  vgg : Layer;
  enc_1_to_4 : Layer;
  enc_5 : Layer;
  transform : Tensor → Tensor → Tensor → Tensor → Tensor;
  decoder : Layer
}.

(** [StyleRunner(device)] followed by [load()]. *)
Definition load (style_model : StyleModel) (dev : Device) : StyleRunner :=
  let children := make_vgg style_model in
  {| device := dev;
     vgg := Sequential children;
     enc_1_to_4 := Sequential (take 31 children);          (* children[:31] *)
     enc_5 := Sequential (take (44 - 31) (drop 31 children)); (* children[31:44] *)
     transform := Transform style_model;
     decoder := make_decoder style_model |}.

(** Calling a module of the runner records the call. *)
Definition run_enc_1_to_4 (self : StyleRunner) (x : Tensor) : M Tensor :=
  λ log, (Ok (enc_1_to_4 self x), log ++ [call_enc_1_to_4 x]).

Definition run_enc_5 (self : StyleRunner) (x : Tensor) : M Tensor :=
  λ log, (Ok (enc_5 self x), log ++ [call_enc_5 x]).

Definition run_transform (self : StyleRunner) (a b c d : Tensor) : M Tensor :=
  λ log, (Ok (transform self a b c d), log ++ [call_transform a b c d]).

Definition run_decoder (self : StyleRunner) (x : Tensor) : M Tensor :=
  λ log, (Ok (decoder self x), log ++ [call_decoder x]).

Definition encode_frame (self : StyleRunner) (source : EncodedFrameOrTensor)
    : M EncodedFrame :=
  match source with
  | Frame source =>
      if decide (t_device (e4 source) = device self) then mret source
      else
        mret (mkEncodedFrame
                (detach (as_tensor (e4 source) (device self)))
                (detach (as_tensor (e5 source) (device self))))
  | Raw source =>
      let source := detach (as_tensor source (device self)) in
      x4 ← run_enc_1_to_4 self (unsqueeze0 source);
      let x4 := detach x4 in
      x5 ← run_enc_5 self x4;
      let x5 := detach x5 in
      mret (mkEncodedFrame x4 x5)
  end.

Definition apply (self : StyleRunner) (source style : EncodedFrameOrTensor)
    : M Tensor :=
  source ← encode_frame self source;
  style ← encode_frame self style;
  t ← run_transform self (e4 source) (e4 style) (e5 source) (e5 style);
  d ← run_decoder self t;
  mret (detach (squeeze d)).

(** ** Objects travelling on the queues *)

(** The queues are untyped.  [Halt] is the class object itself (the
    sentinel the loops compare with), [HaltInstance] an instance [Halt()],
    [Dict] a job given as a dictionary of named parameters, [TensorObj] a
    tensor (what [apply] returns). *)
Inductive Obj : Type :=
  | Halt
  | HaltInstance
  | Dict (kwargs : gmap string EncodedFrameOrTensor)
  | TensorObj (t : Tensor).

(** [x == Halt].  Class [Halt] defines no [__eq__], a dictionary equals
    only dictionaries and a tensor comparison with a class is not
    implemented, so the comparison falls back to object identity with the
    class object. *)
Definition eq_Halt (x : Obj) : bool :=
  match x with
  | Halt => true
  | HaltInstance | Dict _ | TensorObj _ => false
  end.

(** [model_runner.apply] called with [job] unpacked as keyword arguments:
    [job] must be a mapping, and [apply] takes exactly the keyword-only
    parameters [source] and [style]. *)
Definition apply_kwargs (model_runner : StyleRunner) (job : Obj) : M Tensor :=
  match job with
  | Dict kwargs =>
      match kwargs !! "source", kwargs !! "style" with
      | Some source, Some style =>
          if decide (size kwargs = 2) then apply model_runner source style
          else raise TypeError        (* unexpected keyword argument *)
      | _, _ => raise TypeError       (* missing keyword-only argument *)
      end
  | Halt | HaltInstance | TensorObj _ =>
      raise TypeError                 (* unpacking needs a mapping *)
  end.

(** ** round_robin_model_runners: the worker loop *)

(** [polls] are the results of the successive [runner_input.get] calls,
    [runner_output] the items put on the worker's output queue so far. *)
Fixpoint model_run (model_runner : StyleRunner) (polls : list (option Obj))
    (runner_output : list Obj) (log : list Call)
    : LoopStatus * list Obj * list Call :=
  match polls with
  | [] => (Polling, runner_output, log)
  | None :: polls =>                              (* except queue.Empty: continue *)
      model_run model_runner polls runner_output log
  | Some job :: polls =>
      if eq_Halt job then
        (Finished, runner_output ++ [Halt], log)  (* put(Halt); break *)
      else
        match apply_kwargs model_runner job log with
        | (Ok r, log') =>
            model_run model_runner polls (runner_output ++ [TensorObj r]) log'
        | (Raise e, log') => (Raised e, runner_output, log')
        end
  end.

(** ** round_robin_model_runners: the dispatcher *)

(** [thread_input_queues[idx]] raises [IndexError] out of range. *)
Fixpoint push_loop (polls : list (option Obj)) (idx : nat)
    (thread_input_queues : list (list Obj)) : LoopStatus * list (list Obj) :=
  match polls with
  | [] => (Polling, thread_input_queues)
  | None :: polls =>                              (* except queue.Empty: continue *)
      push_loop polls idx thread_input_queues
  | Some job :: polls =>
      if eq_Halt job then (Finished, thread_input_queues)        (* break *)
      else
        match thread_input_queues !! idx with
        | None => (Raised IndexError, thread_input_queues)
        | Some q =>
            push_loop polls
              ((idx + 1) `mod` length thread_input_queues)
              (<[idx := q ++ [job]]> thread_input_queues)
        end
  end.

Definition push_run (polls : list (option Obj))
    (thread_input_queues : list (list Obj)) : LoopStatus * list (list Obj) :=
  push_loop polls 0 thread_input_queues.

(** ** round_robin_model_runners: the collector *)

(** [qs.get(timeout=get_timeout)] with [qs] a Python list of queues: class
    [list] has no attribute [get]. *)
Definition list_get (qs : list (list Obj)) : result Obj :=
  Raise AttributeError.

(** [qs.remove(idx)] with [qs] a Python list of queues and [idx] an
    integer: [list.remove] removes the first element equal to its argument,
    and no queue object equals an integer. *)
Definition list_remove (qs : list (list Obj)) (idx : nat)
    : result (list (list Obj)) :=
  Raise ValueError.

(** [fuel] bounds the number of iterations of [while qs]; [qs] holds the
    contents of the worker output queues of the working set. *)
Fixpoint pull_loop (fuel : nat) (idx : nat) (qs : list (list Obj))
    (output_queue : list Obj) : LoopStatus * list (list Obj) * list Obj :=
  match fuel with
  | 0 => (Polling, qs, output_queue)
  | S fuel =>
      match qs with
      | [] => (Finished, qs, output_queue)          (* while qs: *)
      | _ :: _ =>
          match list_get qs with
          | Raise QueueEmpty => pull_loop fuel idx qs output_queue
          | Raise e => (Raised e, qs, output_queue)
          | Ok r =>
              if eq_Halt r then
                match list_remove qs idx with
                | Raise e => (Raised e, qs, output_queue)
                | Ok qs' => pull_loop fuel idx qs' output_queue
                end
              else
                pull_loop fuel ((idx + 1) `mod` length qs) qs
                  (output_queue ++ [r])
          end
      end
  end.

Definition pull_run (fuel : nat) (thread_output_queues : list (list Obj))
    (output_queue : list Obj) : LoopStatus * list (list Obj) * list Obj :=
  pull_loop fuel 0 thread_output_queues output_queue.

(** ** Loading a style image *)

(** cv2, numpy and torchvision are external; their operations are
    parameters.  [imread] is [None] where [cv2.imread] returns [None]. *)
Variable Image : Type.
Variable imread : string → option Image.
Variable shape : Image → Z * Z.                   (* (img.shape[0], img.shape[1]) *)
Variable slice : Image → Z → Z → Z → Z → Image.   (* img[a:b, c:d, :] *)
Variable resize : Image → Z * Z → Image.          (* cv2.resize *)
Variable cvtColor_BGR2RGB : Image → Image.        (* cv2.cvtColor(_, COLOR_BGR2RGB) *)
Variable to_tensor : Image → Tensor.              (* torchvision's to_tensor *)

(** Python's [int] of a number with a fractional part truncates to zero.
    The numbers it is applied to are halves of integers, which floating
    point represents exactly; they are rationals here. *)
Definition int (q : Q) : Z := Z.quot (Qnum q) (Z.pos (Qden q)).

Definition central_square_crop (img : Image) : Image :=
  let center := (inject_Z (fst (shape img)) / 2, inject_Z (snd (shape img)) / 2)%Q in
  let h := Z.min (fst (shape img)) (snd (shape img)) in
  let w := h in
  let x := (snd center - inject_Z w / 2)%Q in
  let y := (fst center - inject_Z h / 2)%Q in
  slice img (int y) (int (y + inject_Z h)) (int x) (int (x + inject_Z w)).

(** When [cv2.imread] returned [None], [img.shape] raises. *)
Definition load_image_for_style (path : string) : M Tensor :=
  match imread path with
  | None => raise AttributeError
  | Some img =>
      let img := central_square_crop img in
      let img := resize img (512, 512)%Z in
      let img := cvtColor_BGR2RGB img in
      mret (to_tensor img)
  end.

(** ** main *)

(** The parsed command line. *)
Record Args : Type := mkArgs {
  style_devices : list string;       (* default ["cuda"] *)
  style_config : string              (* default "style_config.json" *)
}.

(** [open] and [json5.load] are external: [read_config path] is the parsed
    document, [None] when opening or parsing raises. *)
Variable read_config : string → option (gmap string (list string)).

Definition str_le (x y : string) : Prop := String.leb x y = true.

#[global] Instance str_le_dec (x y : string) : Decision (str_le x y).
Proof. unfold str_le. apply _. Defined.

(** [sorted(set(names))] *)
Definition sorted_set (names : list string) : list string :=
  merge_sort str_le (elements (list_to_set (C := gset string) names)).

(** A [for] loop whose body may raise. *)
Fixpoint for_each {A S : Type} (xs : list A) (body : S → A → M S) (s : S)
    : M S :=
  match xs with
  | [] => mret s
  | x :: xs => s' ← body s x; for_each xs body s'
  end.

(** [d[k]] raises [KeyError] when [k] is not a key. *)
Definition getitem {V : Type} (d : gmap string V) (k : string) : M V :=
  match d !! k with
  | Some v => mret v
  | None => raise KeyError
  end.

(** [main] after [parse_args], up to the construction of
    [style_device_map], which is returned. *)
Definition main (style_model : StyleModel) (args : Args)
    : M (gmap string (gmap string EncodedFrame)) :=
  let style_devices : list (string * Device) :=
    (λ name, (name, name)) <$> sorted_set (style_devices args) in
  let style_runners : gmap string StyleRunner :=
    foldl (λ style_runners '(name, device),
             <[name := load style_model device]> style_runners)
          ∅ style_devices in
  match read_config (style_config args) with
  | None => raise ValueError
  | Some style_config =>
      styles ← getitem style_config "styles";
      for_each styles (λ style_device_map style_path,
        style_tensor ← load_image_for_style style_path;
        entry ← for_each style_devices (λ entry '(name, device),
                  runner ← getitem style_runners name;
                  frame ← encode_frame runner (Raw style_tensor);
                  mret (<[name := frame]> entry)) ∅;
        mret (<[style_path := entry]> style_device_map)) ∅
  end.

(** Closed forms of the two steps of the start-up loop, for the statements
    about [main]: the tensor [load_image_for_style] makes of a decoded
    image, and the frame [encode_frame] makes of a raw tensor. *)
Definition preprocessed (img : Image) : Tensor :=
  to_tensor (cvtColor_BGR2RGB (resize (central_square_crop img) (512, 512)%Z)).

Definition encoded (self : StyleRunner) (t : Tensor) : EncodedFrame :=
  let x := unsqueeze0 (as_tensor t (device self)) in
  mkEncodedFrame (enc_1_to_4 self x) (enc_5 self (enc_1_to_4 self x)).

End Model.

Unset Implicit Arguments.

Arguments Halt {Data}.
Arguments HaltInstance {Data}.
Arguments Dict {Data} kwargs.
Arguments TensorObj {Data} t.

(** The items a poll sequence delivers, time-outs dropped. *)
Definition dequeued {A : Type} (polls : list (option A)) : list A :=
  omap id polls.

(** The dispatcher's loop invariant: after [jobs] have been forwarded to
    [W] workers, [c] full rounds and [idx] more jobs have gone out; the
    queues before the rotation index hold [c + 1] jobs, the others [c], and
    place [p] of queue [k] holds job [p * W + k]. *)
Definition dispatched {Data : Type} (W : nat) (jobs : list (Obj Data))
    (idx : nat) (qs : list (list (Obj Data))) : Prop :=
  length qs = W ∧ idx < W ∧
  ∃ c, length jobs = c * W + idx ∧
    ∀ k q, qs !! k = Some q →
      length q = (if decide (k < idx) then S c else c) ∧
      ∀ p, p < length q → q !! p = jobs !! (p * W + k).

(** ** Closed forms, for the statements about the loops *)

(** The job [dict(source=source, style=style)]. *)
Definition job_of {Data : Type} (source style : EncodedFrameOrTensor Data)
    : Obj Data :=
  Dict (<["source" := source]> (<["style" := style]> ∅)).

(** The frame [encode_frame] returns for an input. *)
Definition encoded_input {Data : Type} (self : StyleRunner Data)
    (x : EncodedFrameOrTensor Data) : EncodedFrame Data :=
  match x with
  | Frame f =>
      if decide (t_device (e4 f) = device self) then f
      else mkEncodedFrame (as_tensor (e4 f) (device self))
                          (as_tensor (e5 f) (device self))
  | Raw t => encoded self t
  end.

(** The tensor [apply] returns for a source and a style. *)
Definition applied {Data : Type} (self : StyleRunner Data)
    (source style : EncodedFrameOrTensor Data) : Tensor Data :=
  let s := encoded_input self source in
  let y := encoded_input self style in
  squeeze (decoder self (transform self (e4 s) (e4 y) (e5 s) (e5 y))).

(** The number of raw tensors among the inputs of a job: 1 or 0. *)
Definition is_raw {Data : Type} (x : EncodedFrameOrTensor Data) : nat :=
  match x with
  | Raw _ => 1
  | Frame _ => 0
  end.

(** The worker threads of [round_robin_model_runners], one per runner of
    [order], each run until it has polled everything the dispatcher put on
    its input queue. *)
Definition worker_runs {Data : Type} (order : list (StyleRunner Data))
    (thread_input_queues : list (list (Obj Data)))
    : list (LoopStatus * list (Obj Data) * list (Call Data)) :=
  zip_with (λ model_runner q, model_run model_runner (Some <$> q) [] [])
           order thread_input_queues.

(** ** Concrete instances, used to run the definitions *)

Module Demo.

(** A layer that keeps device and shape and counts itself in the payload. *)
Definition layer : Layer nat :=
  λ x, mkTensor (t_device x) (t_shape x) (S (t_data x)).

Definition style_model : StyleModel nat :=
  {| make_vgg := replicate 44 layer;
     Transform := λ a b c d,
       mkTensor (t_device a) (1 :: t_shape a)
                (t_data a + t_data b + t_data c + t_data d);
     make_decoder := layer |}.

Definition runner : StyleRunner nat := load style_model "cuda:0".

Definition raw : Tensor nat := mkTensor "cpu" [3; 512; 512] 0.

(** A frame whose tensors are both on cuda:1. *)
Definition frame_cuda1 : EncodedFrame nat :=
  mkEncodedFrame (mkTensor "cuda:1" [1; 512; 64; 64] 5)
                 (mkTensor "cuda:1" [1; 512; 32; 32] 6).

(** A frame whose tensors are both on cuda:0. *)
Definition frame_cuda0 : EncodedFrame nat :=
  mkEncodedFrame (mkTensor "cuda:0" [1; 512; 64; 64] 5)
                 (mkTensor "cuda:0" [1; 512; 32; 32] 6).

(** A frame whose e4 is on cuda:0 and whose e5 is on cuda:1. *)
Definition frame_mixed : EncodedFrame nat :=
  mkEncodedFrame (mkTensor "cuda:0" [1; 512; 64; 64] 5)
                 (mkTensor "cuda:1" [1; 512; 32; 32] 6).

Definition job : Obj nat :=
  Dict (<["source" := Raw raw]> (<["style" := Frame frame_cuda0]> ∅)).

Definition job2 : Obj nat :=
  Dict (<["source" := Frame frame_cuda0]> (<["style" := Raw raw]> ∅)).

(** A job without the [style] parameter. *)
Definition job_no_style : Obj nat :=
  Dict (<["source" := Raw raw]> ∅).

(** Images reduced to their shape. *)
Definition Image : Type := Z * Z.
Definition imread (path : string) : option Image :=
  if decide (path = "missing.png") then None else Some (640, 480)%Z.
Definition shape (img : Image) : Z * Z := img.
Definition slice (img : Image) (a b c d : Z) : Image := (b - a, d - c)%Z.
Definition resize (img : Image) (size : Z * Z) : Image := size.
Definition cvtColor_BGR2RGB (img : Image) : Image := img.
Definition to_tensor (img : Image) : Tensor nat :=
  mkTensor "cpu" [3; Z.to_nat (fst img); Z.to_nat (snd img)] 0.
Definition read_config (path : string)
    : option (gmap string (list string)) :=
  if decide (path = "style_config.json")
  then Some (<["styles" := ["a.png"; "b.png"]]> ∅) else None.

Definition args : Args :=
  {| style_devices := ["cuda:1"; "cuda:0"; "cuda:1"];
     style_config := "style_config.json" |}.

Definition main_demo :=
  main imread shape slice resize cvtColor_BGR2RGB to_tensor read_config
       style_model args [].

End Demo.

(** Configurations for the error paths of start-up. *)
Module Demo2.

Definition read_config (path : string) : option (gmap string (list string)) :=
  if decide (path = "dup.json")
  then Some (<["styles" := ["a.png"; "a.png"; "b.png"]]> ∅)
  else if decide (path = "nostyles.json")
  then Some (<["devices" := ["cuda:0"]]> ∅)
  else if decide (path = "bad.json")
  then Some (<["styles" := ["a.png"; "missing.png"; "b.png"]]> ∅)
  else None.

Definition args (config : string) : Args :=
  {| style_devices := ["cuda:1"; "cuda:0"; "cuda:1"];
     style_config := config |}.

Definition start (config : string) :=
  main Demo.imread Demo.shape Demo.slice Demo.resize Demo.cvtColor_BGR2RGB
       Demo.to_tensor read_config Demo.style_model (args config) [].

End Demo2.

(** * Properties *)

Section Encode.

Context {Data : Type}.
Implicit Types (self : StyleRunner Data) (f : EncodedFrame Data).
Implicit Types (t : Tensor Data) (log : list (Call Data)).

Lemma as_tensor_device t d : t_device (as_tensor t d) = d.
Proof. unfold as_tensor. by case_decide. Qed.

Lemma as_tensor_data t d : t_data (as_tensor t d) = t_data t.
Proof. unfold as_tensor. by case_decide. Qed.

Lemma as_tensor_shape t d : t_shape (as_tensor t d) = t_shape t.
Proof. unfold as_tensor. by case_decide. Qed.

Lemma encoder_calls_app log1 log2 :
  encoder_calls (log1 ++ log2) = encoder_calls log1 + encoder_calls log2.
Proof. unfold encoder_calls. by rewrite filter_app, length_app. Qed.

(** The frame [encode_frame] computes from a raw tensor. *)
Lemma encode_frame_raw self t log :
  let x := unsqueeze0 (as_tensor t (device self)) in
  encode_frame self (Raw t) log =
    (Ok (mkEncodedFrame (enc_1_to_4 self x) (enc_5 self (enc_1_to_4 self x))),
     log ++ [call_enc_1_to_4 x; call_enc_5 (enc_1_to_4 self x)]).
Proof.
  cbn. unfold mbind, M_bind, run_enc_1_to_4, run_enc_5, mret, M_ret, detach.
  cbn. by rewrite <- app_assoc.
Qed.

(** [encode_frame] never raises, and what it returns and what it adds to
    the call log do not depend on the log it starts from. *)
Lemma encode_frame_frame_rule self (source : EncodedFrameOrTensor Data) log :
  ∃ fr calls,
    encode_frame self source [] = (Ok fr, calls) ∧
    encode_frame self source log = (Ok fr, log ++ calls).
Proof.
  destruct source as [f | t].
  - cbn. case_decide; eexists _, []; by rewrite app_nil_r.
  - eexists _, _. split; [apply encode_frame_raw |].
    rewrite encode_frame_raw. done.
Qed.

(** C4.  A frame whose tensors are on the runner's device (the test reads
    the device of [e4]) is returned as it is: the result is the argument
    itself and the call log is unchanged, so no encoder stage ran. *)
Theorem encode_frame_same_device self f log :
  t_device (e4 f) = device self →
  encode_frame self (Frame f) log = (Ok f, log)
  ∧ encoder_calls (snd (encode_frame self (Frame f) log)) = encoder_calls log.
Proof.
  intros Hdev. cbn. rewrite decide_True by done. done.
Qed.

(** C3, as the code has it.  A frame whose [e4] is on another device is
    not re-encoded: the result holds the two stored tensors moved to the
    runner's device ([torch.as_tensor] with [device=], then [detach]), with
    their stored payload and shape, and no module of the runner is
    called. *)
Theorem encode_frame_other_device self f log :
  t_device (e4 f) ≠ device self →
  ∃ fr,
    encode_frame self (Frame f) log = (Ok fr, log)
    ∧ fr = mkEncodedFrame (as_tensor (e4 f) (device self))
                          (as_tensor (e5 f) (device self))
    ∧ t_device (e4 fr) = device self ∧ t_device (e5 fr) = device self
    ∧ t_data (e4 fr) = t_data (e4 f) ∧ t_data (e5 fr) = t_data (e5 f)
    ∧ t_shape (e4 fr) = t_shape (e4 f) ∧ t_shape (e5 fr) = t_shape (e5 f)
    ∧ encoder_calls (snd (encode_frame self (Frame f) log)) = encoder_calls log.
Proof.
  intros Hdev.
  exists (mkEncodedFrame (as_tensor (e4 f) (device self))
                         (as_tensor (e5 f) (device self))).
  assert (encode_frame self (Frame f) log =
            (Ok (mkEncodedFrame (as_tensor (e4 f) (device self))
                                (as_tensor (e5 f) (device self))), log)) as ->.
  { cbn [encode_frame]. by rewrite decide_False by done. }
  cbn [e4 e5 snd].
  by rewrite !as_tensor_device, !as_tensor_data, !as_tensor_shape.
Qed.

(** C9.  The same-device test reads [e4] only: a frame whose [e4] is on the
    runner's device and whose [e5] is elsewhere is returned as it is, its
    [e5] still off the runner's device, and nothing is computed. *)
Theorem encode_frame_tests_e4_only self f log :
  t_device (e4 f) = device self →
  t_device (e5 f) ≠ device self →
  ∃ fr,
    encode_frame self (Frame f) log = (Ok fr, log)
    ∧ fr = f
    ∧ t_device (e5 fr) ≠ device self.
Proof.
  intros H4 H5. exists f. cbn. rewrite decide_True by done. done.
Qed.

Lemma squeeze_no_singleton t : 1 ∉ t_shape (squeeze t).
Proof. cbn. intros [Hne _]%list_elem_of_filter. by apply Hne. Qed.

(** C7.  [apply] encodes [source] and [style], each as [encode_frame] does
    on its own from an empty log, calls the transform stage once on
    (source.e4, style.e4, source.e5, style.e5), the decoder once on the
    transform's output, and returns the decoder's output with every
    dimension of size one removed. *)
Theorem apply_pipeline self (source style : EncodedFrameOrTensor Data) log :
  ∃ s y calls_s calls_y,
    encode_frame self source [] = (Ok s, calls_s)
    ∧ encode_frame self style [] = (Ok y, calls_y)
    ∧ let t := transform self (e4 s) (e4 y) (e5 s) (e5 y) in
      apply self source style log =
        (Ok (squeeze (decoder self t)),
         log ++ calls_s ++ calls_y
             ++ [call_transform (e4 s) (e4 y) (e5 s) (e5 y); call_decoder t])
      ∧ t_shape (squeeze (decoder self t))
          = filter (λ n, n ≠ 1) (t_shape (decoder self t))
      ∧ 1 ∉ t_shape (squeeze (decoder self t)).
Proof.
  destruct (encode_frame_frame_rule self source log) as (s & cs & Hs0 & Hs).
  destruct (encode_frame_frame_rule self style (log ++ cs))
    as (y & cy & Hy0 & Hy).
  exists s, y, cs, cy. split; [done |]. split; [done |]. cbn zeta.
  split; [| split; [done | apply squeeze_no_singleton]].
  unfold apply, mbind, M_bind. rewrite Hs, Hy.
  unfold run_transform, run_decoder, mret, M_ret, detach.
  by rewrite <- !app_assoc.
Qed.

End Encode.

Section Loops.

Context {Data : Type}.
Implicit Types (model_runner : StyleRunner Data) (job : Obj Data).
Implicit Types (polls rest : list (option (Obj Data))).
Implicit Types (log : list (Call Data)) (q out : list (Obj Data)).
Implicit Types (qs : list (list (Obj Data))).

(** *** The sentinel test *)

Lemma eq_Halt_true job : eq_Halt job = true ↔ job = Halt.
Proof. destruct job; cbn; split; congruence. Qed.

Lemma eq_Halt_false job : eq_Halt job = false ↔ job ≠ Halt.
Proof. destruct job; cbn; split; congruence. Qed.

(** *** Binding the keyword arguments of [apply] *)

Lemma apply_kwargs_missing model_runner
    (kwargs : gmap string (EncodedFrameOrTensor Data)) log :
  kwargs !! "source" = None ∨ kwargs !! "style" = None →
  apply_kwargs model_runner (Dict kwargs) log = (Raise TypeError, log).
Proof.
  intros [H | H]; cbn; rewrite H; [done |].
  by destruct (kwargs !! "source").
Qed.

(** A job the call of [apply] raises on ends the worker loop at once,
    whatever is polled afterwards. *)
Lemma model_run_raise model_runner job e log' rest out log :
  eq_Halt job = false →
  apply_kwargs model_runner job log = (Raise e, log') →
  model_run model_runner (Some job :: rest) out log = (Raised e, out, log').
Proof. intros Hh Ha. cbn. by rewrite Hh, Ha. Qed.

(** What follows a job on which the loop ends is never looked at. *)
Lemma model_run_cut model_runner job e :
  eq_Halt job = false →
  (∀ log, ∃ log', apply_kwargs model_runner job log = (Raise e, log')) →
  ∀ polls rest out log,
    model_run model_runner (polls ++ Some job :: rest) out log =
    model_run model_runner (polls ++ [Some job]) out log.
Proof.
  intros Hh Ha polls rest. induction polls as [| [j |] polls IH]; intros out log.
  - destruct (Ha log) as [log' Hl]. cbn [app].
    by rewrite !(model_run_raise _ _ e log').
  - cbn. destruct (eq_Halt j); [done |].
    destruct (apply_kwargs model_runner j log) as [[r | e'] log']; [apply IH | done].
  - cbn. apply IH.
Qed.

(** C6.  A job without [source] or without [style] makes the call of
    [apply] raise [TypeError]; the worker loop does not catch it: the loop
    ends with that exception, its output queue is as before the job, and
    whatever the input queue delivers after the job has no effect. *)
Theorem model_run_missing_parameter model_runner
    (kwargs : gmap string (EncodedFrameOrTensor Data)) polls rest out log :
  kwargs !! "source" = None ∨ kwargs !! "style" = None →
  apply_kwargs model_runner (Dict kwargs) log = (Raise TypeError, log)
  ∧ model_run model_runner (Some (Dict kwargs) :: rest) out log
      = (Raised TypeError, out, log)
  ∧ model_run model_runner (polls ++ Some (Dict kwargs) :: rest) out log
      = model_run model_runner (polls ++ [Some (Dict kwargs)]) out log.
Proof.
  intros Hmiss. split; [by apply apply_kwargs_missing |]. split.
  - apply model_run_raise; [done | by apply apply_kwargs_missing].
  - apply model_run_cut with (e := TypeError); [done |].
    intros log0. exists log0. by apply apply_kwargs_missing.
Qed.

(** *** The worker and the sentinel *)

(** A worker that is never handed the sentinel never leaves its loop by
    [break] and never puts the sentinel on its output queue. *)
Lemma model_run_without_Halt model_runner polls out log :
  Halt ∉ dequeued polls →
  Halt ∉ out →
  (model_run model_runner polls out log).1.1 ≠ Finished
  ∧ Halt ∉ (model_run model_runner polls out log).1.2.
Proof.
  revert out log. induction polls as [| [j |] polls IH]; intros out log Hin Hout.
  - done.
  - cbn in Hin. apply not_elem_of_cons in Hin as [Hj Hin].
    cbn. destruct (eq_Halt j) eqn:Hh; [by apply eq_Halt_true in Hh |].
    destruct (apply_kwargs model_runner j log) as [[r | e] log']; [| done].
    apply IH; [done |]. rewrite elem_of_app, list_elem_of_singleton.
    intros [? | ?]; done.
  - cbn. by apply IH.
Qed.

(** *** The dispatcher and the sentinel *)

(** The dispatcher puts only items that are not the sentinel. *)
Lemma push_loop_never_puts_Halt polls idx qs :
  Forall (λ q, Halt ∉ q) qs →
  Forall (λ q, Halt ∉ q) (push_loop polls idx qs).2.
Proof.
  revert idx qs. induction polls as [| [j |] polls IH]; intros idx qs Hqs; cbn.
  - done.
  - destruct (eq_Halt j) eqn:Hh; [done |].
    destruct (qs !! idx) as [q |] eqn:Hq; [| done].
    apply IH. apply Forall_insert; [done |].
    rewrite elem_of_app, list_elem_of_singleton.
    intros [Hin | Heq]; [| by subst j].
    by eapply (Forall_lookup_1 _ _ _ _ Hqs Hq).
  - by apply IH.
Qed.

Lemma push_run_never_puts_Halt polls (W : nat) :
  Forall (λ q, Halt ∉ q) (push_run polls (replicate W [])).2.
Proof.
  apply push_loop_never_puts_Halt, Forall_replicate. apply not_elem_of_nil.
Qed.

(** On the sentinel the dispatcher leaves its loop with the worker queues
    as they stand. *)
Lemma push_loop_Halt rest idx qs :
  push_loop (Some Halt :: rest) idx qs = (Finished, qs).
Proof. done. Qed.

(** *** The collector *)

(** The collector's first iteration raises as soon as there is a worker;
    it forwards nothing and removes nothing. *)
Lemma pull_loop_raises fuel idx qs out :
  qs ≠ [] →
  pull_loop (S fuel) idx qs out = (Raised AttributeError, qs, out).
Proof. by destruct qs. Qed.

Lemma pull_loop_output fuel idx qs out :
  (pull_loop fuel idx qs out).2 = out ∧ (pull_loop fuel idx qs out).1.2 = qs.
Proof. destruct fuel; [done |]. by destruct qs. Qed.

End Loops.

Section Dispatcher.

Context {Data : Type}.
Implicit Types (job : Obj Data) (jobs : list (Obj Data)).
Implicit Types (polls rest : list (option (Obj Data))).
Implicit Types (q : list (Obj Data)) (qs : list (list (Obj Data))).

Lemma dispatched_init (W : nat) :
  1 ≤ W → dispatched (Data := Data) W [] 0 (replicate W []).
Proof.
  intros HW. split; [apply length_replicate |]. split; [lia |].
  exists 0. split; [done |]. intros k q [-> _]%lookup_replicate.
  split; [by case_decide; [lia |] |]. cbn. lia.
Qed.

(** One more job goes to the queue at the rotation index. *)
Lemma dispatched_step (W : nat) jobs idx qs job :
  dispatched W jobs idx qs →
  ∃ q, qs !! idx = Some q
    ∧ dispatched W (jobs ++ [job]) ((idx + 1) `mod` length qs)
        (<[idx := q ++ [job]]> qs).
Proof.
  intros (Hlen & Hidx & c & HN & Hqs).
  destruct (lookup_lt_is_Some_2 qs idx) as [q Hq]; [lia |].
  exists q. split; [done |].
  split; [by rewrite length_insert |]. rewrite Hlen.
  split; [apply Nat.mod_upper_bound; lia |].
  destruct (Hqs idx q Hq) as [Hlq Hq_at].
  rewrite decide_False in Hlq by lia.
  destruct (decide (idx + 1 < W)) as [Hlt | Hge].
  - rewrite Nat.mod_small by done. exists c.
    split; [rewrite length_app; cbn; lia |].
    intros k q' Hk. destruct (decide (k = idx)) as [-> | Hne].
    + rewrite list_lookup_insert_eq in Hk by lia. injection Hk as <-.
      rewrite length_app. cbn [length]. rewrite decide_True by lia.
      split; [lia |]. intros p Hp.
      destruct (decide (p < length q)) as [Hpl | Hpl].
      * rewrite !lookup_app_l; [by apply Hq_at | nia | done].
      * assert (p = c) as -> by lia.
        rewrite lookup_app_r by lia. rewrite lookup_app_r by lia.
        by replace (c - length q) with 0 by lia;
           replace (c * W + idx - length jobs) with 0 by lia.
    + rewrite list_lookup_insert_ne in Hk by done.
      destruct (Hqs k q' Hk) as [Hl Hat].
      assert (k < W) by (apply lookup_lt_Some in Hk; lia).
      split; [repeat case_decide; lia |]. intros p Hp.
      rewrite lookup_app_l; [by apply Hat |].
      case_decide; nia.
  - assert (idx + 1 = W) as HW by lia.
    replace ((idx + 1) `mod` W) with 0
      by (rewrite HW; symmetry; apply Nat.Div0.mod_same).
    exists (S c).
    split; [rewrite length_app; cbn; lia |].
    intros k q' Hk. rewrite decide_False by lia.
    destruct (decide (k = idx)) as [-> | Hne].
    + rewrite list_lookup_insert_eq in Hk by lia. injection Hk as <-.
      rewrite length_app. cbn [length]. split; [lia |]. intros p Hp.
      destruct (decide (p < length q)) as [Hpl | Hpl].
      * rewrite !lookup_app_l; [by apply Hq_at | nia | done].
      * assert (p = c) as -> by lia.
        rewrite lookup_app_r by lia. rewrite lookup_app_r by lia.
        by replace (c - length q) with 0 by lia;
           replace (c * W + idx - length jobs) with 0 by lia.
    + rewrite list_lookup_insert_ne in Hk by done.
      destruct (Hqs k q' Hk) as [Hl Hat].
      assert (k < W) by (apply lookup_lt_Some in Hk; lia).
      rewrite decide_True in Hl by lia.
      split; [lia |]. intros p Hp.
      rewrite lookup_app_l; [by apply Hat | nia].
Qed.

(** The loop keeps the invariant, and leaves on the sentinel. *)
Lemma push_loop_dispatched (W : nat) polls :
  ∀ jobs idx qs rest,
    dispatched W jobs idx qs →
    Forall (λ job, eq_Halt job = false) (dequeued polls) →
    ∃ idx' qs',
      push_loop (polls ++ Some Halt :: rest) idx qs = (Finished, qs')
      ∧ push_loop polls idx qs = (Polling, qs')
      ∧ dispatched W (jobs ++ dequeued polls) idx' qs'.
Proof.
  induction polls as [| [j |] polls IH]; intros jobs idx qs rest Hinv Hjobs.
  - exists idx, qs. cbn. by rewrite app_nil_r.
  - cbn in Hjobs. apply Forall_cons in Hjobs as [Hj Hjobs].
    destruct (dispatched_step W jobs idx qs j Hinv) as (q & Hq & Hinv').
    destruct (IH _ _ _ rest Hinv' Hjobs) as (idx' & qs' & Hrun & Hrun' & Hfin).
    exists idx', qs'. cbn. rewrite Hj, Hq. split; [done |]. split; [done |].
    by rewrite <- app_assoc in Hfin.
  - cbn. by apply IH.
Qed.

(** What the invariant says of each queue, at every place. *)
Lemma dispatched_lookup (W : nat) jobs idx qs k q p :
  dispatched W jobs idx qs →
  qs !! k = Some q →
  q !! p = jobs !! (p * W + k).
Proof.
  intros (Hlen & Hidx & c & HN & Hqs) Hk.
  destruct (Hqs k q Hk) as [Hl Hat].
  destruct (decide (p < length q)) as [Hp | Hp]; [by apply Hat |].
  assert (k < W) by (apply lookup_lt_Some in Hk; lia).
  rewrite !lookup_ge_None_2; [done | | lia].
  case_decide; nia.
Qed.

(** C2.  With [W >= 1] workers, when the shared input queue delivers the
    jobs [jobs] (time-outs in between, none of them the sentinel) and then
    the sentinel, the dispatcher leaves its loop with job [i] at place
    [i / W] of the input queue of worker [i mod W]; place [p] of queue [k]
    holds job [p * W + k] and nothing else is on the queues, so every
    queue holds its jobs unchanged and in submission order. *)
Theorem push_run_round_robin (W : nat) jobs polls rest :
  1 ≤ W →
  dequeued polls = jobs →
  Forall (λ job, eq_Halt job = false) jobs →
  ∃ qs,
    push_run (polls ++ Some Halt :: rest) (replicate W []) = (Finished, qs)
    ∧ length qs = W
    ∧ (∀ i job, jobs !! i = Some job →
         ∃ q, qs !! (i `mod` W) = Some q ∧ q !! (i `div` W) = Some job)
    ∧ (∀ k q p, qs !! k = Some q → q !! p = jobs !! (p * W + k)).
Proof.
  intros HW Hdeq Hjobs. rewrite <- Hdeq in Hjobs.
  destruct (push_loop_dispatched W polls [] 0 (replicate W []) rest
              (dispatched_init W HW) Hjobs) as (idx' & qs & Hrun & _ & Hinv).
  cbn [app] in Hinv. rewrite Hdeq in Hinv.
  exists qs. split; [done |]. split; [apply Hinv |]. split.
  - intros i job Hi.
    assert (i `mod` W < length qs) as Hlt.
    { destruct Hinv as [-> _]. apply Nat.mod_upper_bound. lia. }
    destruct (lookup_lt_is_Some_2 qs _ Hlt) as [q Hq].
    exists q. split; [done |].
    rewrite (dispatched_lookup W jobs idx' qs _ q _ Hinv Hq).
    rewrite <- Hi. f_equal. pose proof (Nat.div_mod_eq i W). lia.
  - intros k q p Hk. by eapply dispatched_lookup.
Qed.

End Dispatcher.

Section Sentinel.

Context {Data : Type}.
Implicit Types (model_runner : StyleRunner Data) (job : Obj Data).
Implicit Types (polls rest : list (option (Obj Data))).
Implicit Types (log : list (Call Data)) (out : list (Obj Data)).

(** Time-outs leave a worker where it is. *)
Lemma model_run_timeouts model_runner (n : nat) out log :
  model_run model_runner (replicate n None) out log = (Polling, out, log).
Proof. induction n as [| n IH]; [done | apply IH]. Qed.

(** C10.  The loops take an item for the sentinel exactly when it is the
    class object [Halt].  An instance [Halt()] and a dictionary are not:
    the dispatcher puts the instance on the queue at the rotation index and
    goes on, and a worker that dequeues the instance does not put [Halt] on
    its output queue but evaluates the call of [apply] on it, which raises
    [TypeError] since the instance cannot be unpacked as keyword
    arguments. *)
Theorem halt_is_the_class_object model_runner :
  (∀ job, eq_Halt job = true ↔ job = Halt)
  ∧ eq_Halt (HaltInstance (Data := Data)) = false
  ∧ (∀ kwargs : gmap string (EncodedFrameOrTensor Data),
       eq_Halt (Dict kwargs) = false)
  ∧ (∀ (W : nat) polls,
       push_run (Some HaltInstance :: polls) (replicate (S W) []) =
       push_loop polls (1 `mod` S W)
         (<[0 := [HaltInstance]]> (replicate (S W) [])))
  ∧ (∀ (W : nat) rest,
       push_run (Some HaltInstance :: Some Halt :: rest) (replicate (S W) [])
       = (Finished, [HaltInstance] :: replicate W []))
  ∧ (∀ rest out log,
       model_run model_runner (Some HaltInstance :: rest) out log
       = (Raised TypeError, out, log)).
Proof.
  split; [apply eq_Halt_true |]. repeat split; try done.
  intros W polls. unfold push_run. cbn. by rewrite length_replicate.
Qed.

(** C5, on the code as written.  With one worker whose output queue holds
    [Halt], the first iteration of the collector raises [AttributeError]
    at [qs.get]: nothing is read, the queue stays in the working set and
    the shared output queue stays empty. *)
Theorem pull_run_raises_at_get (fuel : nat) :
  pull_run (S fuel) [[Halt (Data := Data)]] []
  = (Raised AttributeError, [[Halt]], []).
Proof. done. Qed.

End Sentinel.

(** C1, on the code as written.  Two workers, one job and then [Halt] on
    the shared input queue: the dispatcher leaves its loop having put the
    job on the first worker's queue and nothing else, so no worker queue
    holds [Halt]; the first worker processes the job and then polls
    forever, the second polls forever, and neither puts [Halt] on its
    output queue. *)
Theorem push_run_drops_Halt :
  push_run [Some Demo.job; Some Halt] [[]; []] = (Finished, [[Demo.job]; []])
  ∧ (∀ n : nat, ∃ r log,
       model_run Demo.runner (Some Demo.job :: replicate n None) [] []
       = (Polling, [TensorObj r], log))
  ∧ (∀ n : nat,
       model_run Demo.runner (replicate n None) [] [] = (Polling, [], [])).
Proof.
  split; [reflexivity |]. split.
  - intros n. eexists _, _. cbn [model_run Demo.job eq_Halt].
    destruct (apply_kwargs Demo.runner Demo.job []) as [res log'] eqn:Happ.
    vm_compute in Happ. injection Happ as <- <-.
    apply model_run_timeouts.
  - intros n. apply model_run_timeouts.
Qed.

Section Startup.

Context {Data Image : Type}.
Context (imread : string → option Image) (shape : Image → Z * Z)
        (slice : Image → Z → Z → Z → Z → Image)
        (resize : Image → Z * Z → Image)
        (cvtColor_BGR2RGB : Image → Image) (to_tensor : Image → Tensor Data)
        (read_config : string → option (gmap string (list string)))
        (style_model : StyleModel Data).

Lemma sorted_set_elem (names : list string) name :
  name ∈ sorted_set names ↔ name ∈ names.
Proof.
  unfold sorted_set.
  by rewrite merge_sort_Permutation, elem_of_elements, elem_of_list_to_set.
Qed.

(** A dictionary filled key by key from a list of keys. *)
Lemma foldl_insert_lookup {V : Type} (g : string → V) (ks : list string)
    (d : gmap string V) k :
  foldl (λ d k, <[k := g k]> d) d ks !! k =
    if decide (k ∈ ks) then Some (g k) else d !! k.
Proof.
  revert d. induction ks as [| k' ks IH]; intros d; cbn [foldl].
  - by rewrite decide_False by apply not_elem_of_nil.
  - rewrite IH. destruct (decide (k ∈ ks)) as [Hin | Hin].
    + by rewrite decide_True by (by right).
    + destruct (decide (k = k')) as [-> | Hne].
      * rewrite decide_True by left. apply lookup_insert_eq.
      * rewrite decide_False by (by intros [? | ?]%elem_of_cons).
        by apply lookup_insert_ne.
Qed.

Lemma foldl_insert_dom {V : Type} (g : string → V) (ks : list string)
    (d : gmap string V) :
  dom (foldl (λ d k, <[k := g k]> d) d ks) = dom d ∪ list_to_set ks.
Proof.
  revert d. induction ks as [| k ks IH]; intros d; cbn [foldl].
  - by rewrite list_to_set_nil, (right_id_L ∅ (∪)).
  - rewrite IH, dom_insert_L, list_to_set_cons.
    by rewrite (comm_L (∪) {[k]} (dom d)), (assoc_L (∪)).
Qed.

(** A loop whose body succeeds on every element runs to its end. *)
Lemma for_each_ok {A S : Type} (xs : list A) (body : S → A → M Data S)
    (step : S → A → S) :
  (∀ s x log, x ∈ xs → ∃ log', body s x log = (Ok (step s x), log')) →
  ∀ s log, ∃ log', for_each xs body s log = (Ok (foldl step s xs), log').
Proof.
  induction xs as [| x xs IH]; intros Hbody s log.
  - by exists log.
  - destruct (Hbody s x log) as [log1 H1]; [left |].
    destruct (IH (λ s y l Hy, Hbody s y l (list_elem_of_further _ _ _ Hy))
                 (step s x) log1) as [log2 H2].
    exists log2. cbn. unfold mbind, M_bind. by rewrite H1.
Qed.

Lemma bind_Ok {A B : Type} (m : M Data A) (f : A → M Data B) log a log' :
  m log = (Ok a, log') → (m ≫= f) log = f a log'.
Proof. intros H. unfold mbind, M_bind. by rewrite H. Qed.

Lemma getitem_Some {V : Type} (d : gmap string V) k v (log : list (Call Data)) :
  d !! k = Some v → getitem d k log = (Ok v, log).
Proof. intros H. unfold getitem. by rewrite H. Qed.

Lemma encode_frame_encoded (self : StyleRunner Data) t log :
  ∃ log', encode_frame self (Raw t) log = (Ok (encoded self t), log').
Proof. eexists. apply encode_frame_raw. Qed.

(** Layers that keep the device of their input do so in sequence. *)
Lemma Sequential_device (layers : list (Layer Data)) :
  (∀ layer y, layer ∈ layers → t_device (layer y) = t_device y) →
  ∀ x, t_device (Sequential layers x) = t_device x.
Proof.
  unfold Sequential. induction layers as [| l ls IH]; intros Hl x; [done |].
  cbn. rewrite IH; [apply Hl; left |].
  intros layer y Hin. apply Hl. by right.
Qed.

(** The runners [main] builds: one per device name, loaded for it. *)
Lemma style_runners_lookup (names : list string) name :
  name ∈ names →
  foldl (λ style_runners '(name, device),
           <[name := load style_model device]> style_runners)
        (∅ : gmap string (StyleRunner Data))
        ((λ name, (name, name)) <$> names) !! name
  = Some (load style_model name).
Proof.
  intros Hin. rewrite foldl_fmap.
  rewrite (foldl_insert_lookup (load style_model)). by rewrite decide_True.
Qed.

(** C8.  When the configuration lists the distinct paths [styles] and each
    of them can be read, [main] completes and its style cache map has
    exactly [length styles] entries.  The entry of a path has exactly the
    configured device names as keys, and under a device name it holds the
    frame that [encode_frame] of the runner loaded for that device computes
    from the preprocessed image of the path: the encoder is fed a tensor on
    that device, and its outputs are on that device when the layers keep
    the device of their input. *)
Theorem main_style_device_map (args : Args) (cfg : gmap string (list string))
    (styles : list string) (log : list (Call Data)) :
  read_config (style_config args) = Some cfg →
  cfg !! "styles" = Some styles →
  NoDup styles →
  (∀ path, path ∈ styles → is_Some (imread path)) →
  ∃ style_device_map log',
    main imread shape slice resize cvtColor_BGR2RGB to_tensor read_config
         style_model args log = (Ok style_device_map, log')
    ∧ size style_device_map = length styles
    ∧ ∀ path, path ∈ styles →
        ∃ img entry,
          imread path = Some img
          ∧ style_device_map !! path = Some entry
          ∧ dom entry = list_to_set (style_devices args)
          ∧ ∀ name, name ∈ style_devices args →
              ∃ frame x,
                entry !! name = Some frame
                ∧ device (load style_model name) = name
                ∧ encode_frame (load style_model name)
                    (Raw (preprocessed shape slice resize cvtColor_BGR2RGB
                            to_tensor img)) []
                  = (Ok frame,
                     [call_enc_1_to_4 x;
                      call_enc_5 (enc_1_to_4 (load style_model name) x)])
                ∧ t_device x = name
                ∧ ((∀ layer y, layer ∈ make_vgg style_model →
                      t_device (layer y) = t_device y) →
                   t_device (e4 frame) = name ∧ t_device (e5 frame) = name).
Proof.
  intros Hcfg Hstyles Hnodup Hread.
  set (names := sorted_set (style_devices args)).
  set (tensor := preprocessed shape slice resize cvtColor_BGR2RGB to_tensor).
  set (entry_of := λ t : Tensor Data,
         foldl (λ (e : gmap string (EncodedFrame Data)) n,
                  <[n := encoded (load style_model n) t]> e) ∅ names).
  set (step := λ (m : gmap string (gmap string (EncodedFrame Data))) path,
         match imread path with
         | Some img => <[path := entry_of (tensor img)]> m
         | None => m
         end).
  unfold main. rewrite Hcfg. fold names.
  rewrite (bind_Ok _ _ log styles log) by (by apply getitem_Some).
  match goal with |- context [for_each styles ?b ∅ log] =>
    destruct (for_each_ok styles b step) with
      (s := (∅ : gmap string (gmap string (EncodedFrame Data)))) (log := log)
      as [log' Hrun] end.
  { intros m path l Hpath. destruct (Hread path Hpath) as [img Himg].
    unfold step.
    rewrite (bind_Ok _ _ l (tensor img) l)
      by (unfold load_image_for_style; by rewrite Himg).
    match goal with |- context [for_each _ ?b ∅] =>
      destruct (for_each_ok ((λ name, (name, name)) <$> names) b
                  (λ e '(n, _),
                     <[n := encoded (load style_model n) (tensor img)]> e))
        with (s := (∅ : gmap string (EncodedFrame Data))) (log := l)
        as [l' Hinner] end.
    { intros e [n dev] l0 [n' [[= -> ->] Hn]]%list_elem_of_fmap.
      destruct (encode_frame_encoded (load style_model n') (tensor img) l0)
        as [l1 Henc].
      exists l1.
      rewrite (bind_Ok _ _ l0 (load style_model n') l0)
        by (by apply getitem_Some, style_runners_lookup).
      by rewrite (bind_Ok _ _ l0 _ l1 Henc). }
    exists l'. rewrite (bind_Ok _ _ l _ l' Hinner).
    by rewrite foldl_fmap, Himg. }
  assert (∀ ps m, (∀ p, p ∈ ps → is_Some (imread p)) →
            foldl step m ps =
            foldl (λ m path, <[path := match imread path with
                                       | Some img => entry_of (tensor img)
                                       | None => ∅
                                       end]> m) m ps) as Hfold.
  { induction ps as [| p ps IH]; intros m Hr; [done |].
    cbn [foldl]. rewrite <- IH by (intros; apply Hr; by right).
    f_equal. unfold step. by destruct (Hr p) as [img ->]; [left |]. }
  eexists _, log'. split; [exact Hrun |]. rewrite (Hfold styles ∅ Hread). split.
  - rewrite <- size_dom, foldl_insert_dom, dom_empty_L, (left_id_L ∅ (∪)).
    by apply size_list_to_set.
  - intros path Hpath. destruct (Hread path Hpath) as [img Himg].
    exists img, (entry_of (tensor img)). split; [done |]. split.
    { rewrite (foldl_insert_lookup
                 (λ path, match imread path with
                          | Some img => entry_of (tensor img)
                          | None => ∅
                          end)).
      by rewrite decide_True, Himg. }
    split.
    { unfold entry_of. rewrite foldl_insert_dom, dom_empty_L, (left_id_L ∅ (∪)).
      apply set_eq. intros n.
      rewrite !elem_of_list_to_set. apply sorted_set_elem. }
    intros name Hname.
    exists (encoded (load style_model name) (tensor img)),
           (unsqueeze0 (as_tensor (tensor img) name)).
    split.
    { unfold entry_of.
      rewrite (foldl_insert_lookup (λ n, encoded (load style_model n) (tensor img))).
      rewrite decide_True; [done |]. by apply sorted_set_elem. }
    split; [done |].
    split; [exact (encode_frame_raw (load style_model name) (tensor img) []) |].
    split; [apply as_tensor_device |].
    intros Hlayers. unfold encoded. cbn [e4 e5 load enc_1_to_4 enc_5 device].
    rewrite !Sequential_device.
    + cbn. by rewrite as_tensor_device.
    + intros layer y Hin. apply Hlayers. by eapply subseteq_take.
    + intros layer y Hin. apply Hlayers.
      by eapply subseteq_drop, subseteq_take.
    + intros layer y Hin. apply Hlayers. by eapply subseteq_take.
Qed.

End Startup.

(** * The theorems at concrete inputs *)

Lemma encode_frame_same_device_witness :
  t_device (e4 Demo.frame_cuda0) = device Demo.runner
  ∧ encode_frame Demo.runner (Frame Demo.frame_cuda0) []
      = (Ok Demo.frame_cuda0, []).
Proof.
  split; [reflexivity |].
  apply (encode_frame_same_device Demo.runner Demo.frame_cuda0 []).
  reflexivity.
Defined.

Lemma encode_frame_other_device_witness :
  t_device (e4 Demo.frame_cuda1) ≠ device Demo.runner
  ∧ ∃ fr,
      encode_frame Demo.runner (Frame Demo.frame_cuda1) [] = (Ok fr, [])
      ∧ t_device (e4 fr) = "cuda:0" ∧ t_data (e4 fr) = 5.
Proof.
  assert (t_device (e4 Demo.frame_cuda1) ≠ device Demo.runner) as Hne
    by discriminate.
  split; [exact Hne |].
  destruct (encode_frame_other_device Demo.runner Demo.frame_cuda1 [] Hne)
    as (fr & Hrun & _ & Hd4 & _ & Hx4 & _).
  exists fr. split; [exact Hrun |]. split; [exact Hd4 | exact Hx4].
Defined.

(** C3, as the claim states it, fails: for a frame on cuda:1 and the runner
    of cuda:0 no encoder stage is called, and what is returned is not what
    the encoder computes from any raw tensor. *)
Lemma encode_frame_other_device_not_recomputed :
  t_device (e4 Demo.frame_cuda1) ≠ device Demo.runner
  ∧ ¬ (0 < encoder_calls
             (encode_frame Demo.runner (Frame Demo.frame_cuda1) []).2)
  ∧ ¬ (∃ raw, (encode_frame Demo.runner (Frame Demo.frame_cuda1) []).1
              = Ok (encoded Demo.runner raw)).
Proof.
  split; [discriminate |]. split.
  - vm_compute. lia.
  - intros [raw Heq]. vm_compute in Heq. injection Heq as _ _ H5 _ _ H6.
    revert H5. clear. generalize (t_data raw). intros n H. lia.
Qed.

Lemma encode_frame_tests_e4_only_witness :
  t_device (e4 Demo.frame_mixed) = device Demo.runner
  ∧ t_device (e5 Demo.frame_mixed) ≠ device Demo.runner
  ∧ ∃ fr,
      encode_frame Demo.runner (Frame Demo.frame_mixed) [] = (Ok fr, [])
      ∧ fr = Demo.frame_mixed
      ∧ t_device (e5 fr) ≠ device Demo.runner.
Proof.
  assert (t_device (e5 Demo.frame_mixed) ≠ device Demo.runner) as Hne
    by discriminate.
  split; [reflexivity |]. split; [exact Hne |].
  exact (encode_frame_tests_e4_only Demo.runner Demo.frame_mixed []
           eq_refl Hne).
Defined.

Lemma model_run_missing_parameter_witness :
  (({["source" := Raw Demo.raw]} : gmap string (EncodedFrameOrTensor nat))
     !! "source" = None
   ∨ ({["source" := Raw Demo.raw]} : gmap string (EncodedFrameOrTensor nat))
     !! "style" = None)
  ∧ model_run Demo.runner
      (Some (Dict {["source" := Raw Demo.raw]}) :: [Some Demo.job; Some Halt])
      [] []
    = (Raised TypeError, [], []).
Proof.
  assert (({["source" := Raw Demo.raw]}
             : gmap string (EncodedFrameOrTensor nat)) !! "style" = None)
    as Hmiss by reflexivity.
  split; [right; exact Hmiss |].
  exact (proj1 (proj2 (model_run_missing_parameter Demo.runner
                         {["source" := Raw Demo.raw]} []
                         [Some Demo.job; Some Halt] [] []
                         (or_intror Hmiss)))).
Defined.

Lemma push_run_round_robin_witness :
  1 ≤ 2
  ∧ dequeued [Some Demo.job; None; Some Demo.job2; Some Demo.job_no_style]
      = [Demo.job; Demo.job2; Demo.job_no_style]
  ∧ Forall (λ job, eq_Halt job = false)
      [Demo.job; Demo.job2; Demo.job_no_style]
  ∧ ∃ qs,
      push_run ([Some Demo.job; None; Some Demo.job2; Some Demo.job_no_style]
                  ++ Some Halt :: [Some Demo.job])
               (replicate 2 [])
        = (Finished, qs)
      ∧ length qs = 2.
Proof.
  assert (Forall (λ job : Obj nat, eq_Halt job = false)
            [Demo.job; Demo.job2; Demo.job_no_style]) as Hjobs
    by (repeat constructor).
  split; [lia |]. split; [reflexivity |]. split; [exact Hjobs |].
  destruct (push_run_round_robin 2 [Demo.job; Demo.job2; Demo.job_no_style]
              [Some Demo.job; None; Some Demo.job2; Some Demo.job_no_style]
              [Some Demo.job] (le_S 1 1 (le_n 1)) eq_refl Hjobs)
    as (qs & Hrun & Hlen & _).
  exists qs. split; [exact Hrun | exact Hlen].
Defined.

Lemma main_style_device_map_witness :
  Demo.read_config (style_config Demo.args)
    = Some (<["styles" := ["a.png"; "b.png"]]> ∅)
  ∧ (<["styles" := ["a.png"; "b.png"]]> ∅ : gmap string (list string))
      !! "styles" = Some ["a.png"; "b.png"]
  ∧ NoDup ["a.png"; "b.png"]
  ∧ (∀ path, path ∈ ["a.png"; "b.png"] → is_Some (Demo.imread path))
  ∧ ∃ style_device_map log',
      Demo.main_demo = (Ok style_device_map, log')
      ∧ size style_device_map = 2.
Proof.
  assert (NoDup ["a.png"; "b.png"]) as Hnodup.
  { apply NoDup_cons. split; [| apply NoDup_singleton].
    rewrite list_elem_of_singleton. discriminate. }
  assert (∀ path, path ∈ ["a.png"; "b.png"] → is_Some (Demo.imread path))
    as Hread.
  { intros path Hin. apply elem_of_cons in Hin as [-> | Hin].
    - by eexists.
    - apply list_elem_of_singleton in Hin as ->. by eexists. }
  split; [reflexivity |]. split; [reflexivity |].
  split; [exact Hnodup |]. split; [exact Hread |].
  destruct (main_style_device_map Demo.imread Demo.shape Demo.slice
              Demo.resize Demo.cvtColor_BGR2RGB Demo.to_tensor
              Demo.read_config Demo.style_model Demo.args
              (<["styles" := ["a.png"; "b.png"]]> ∅) ["a.png"; "b.png"] []
              eq_refl eq_refl Hnodup Hread)
    as (m & log' & Hrun & Hsize & _).
  exists m, log'. split; [exact Hrun | exact Hsize].
Defined.

(** * Further properties of the code *)

(** ** The crop window *)

Section Crop.

Context {Image : Type}.
Context (shape : Image → Z * Z) (slice : Image → Z → Z → Z → Z → Image).

#[local] Open Scope Z_scope.

Lemma int_half_difference (a b : Z) :
  0 ≤ b ≤ a →
  int (inject_Z a / 2 - inject_Z b / 2) = (a - b) / 2.
Proof.
  intros Hab. unfold int. cbn.
  rewrite Z.quot_div_nonneg by lia.
  Z.to_euclidean_division_equations. lia.
Qed.

Lemma int_half_difference_plus (a b : Z) :
  0 ≤ b ≤ a →
  int (inject_Z a / 2 - inject_Z b / 2 + inject_Z b) = (a - b) / 2 + b.
Proof.
  intros Hab. unfold int. cbn.
  rewrite Z.quot_div_nonneg by lia.
  Z.to_euclidean_division_equations. lia.
Qed.

(** X1.  The crop is the window of side [min H W] whose offsets are half the
    slack, rounded down; the window lies inside the image and touches both
    borders along the shorter side. *)
Theorem central_square_crop_window (img : Image) :
  0 ≤ fst (shape img) →
  0 ≤ snd (shape img) →
  let H := fst (shape img) in
  let W := snd (shape img) in
  let h := Z.min H W in
  central_square_crop shape slice img
    = slice img ((H - h) / 2) ((H - h) / 2 + h) ((W - h) / 2) ((W - h) / 2 + h)
  ∧ 0 ≤ (H - h) / 2 ∧ (H - h) / 2 + h ≤ H
  ∧ 0 ≤ (W - h) / 2 ∧ (W - h) / 2 + h ≤ W
  ∧ ((H - h) / 2 = 0 ∨ (W - h) / 2 = 0).
Proof.
  intros HH HW H W h. subst H W. unfold central_square_crop. cbn [fst snd].
  fold h.
  assert (0 ≤ h ≤ fst (shape img) ∧ 0 ≤ h ≤ snd (shape img)) as [Hh1 Hh2]
    by (subst h; lia).
  rewrite !int_half_difference, !int_half_difference_plus by done.
  split; [done |].
  assert (h = fst (shape img) ∨ h = snd (shape img)) as Hmin by (subst h; lia).
  clearbody h.
  repeat split; Z.to_euclidean_division_equations; lia.
Qed.

End Crop.

Lemma central_square_crop_window_witness :
  (0 ≤ fst (Demo.shape (640, 480)))%Z
  ∧ (0 ≤ snd (Demo.shape (640, 480)))%Z
  ∧ central_square_crop Demo.shape Demo.slice (640, 480)%Z = (480, 480)%Z.
Proof.
  split; [by vm_compute |]. split; [by vm_compute |].
  rewrite (proj1 (central_square_crop_window Demo.shape Demo.slice
                    (640, 480)%Z ltac:(by vm_compute) ltac:(by vm_compute))).
  reflexivity.
Defined.

(** ** The runner: load, encode_frame, apply *)

Section Runner.

Context {Data : Type}.
Implicit Types (self : StyleRunner Data) (f : EncodedFrame Data).
Implicit Types (t : Tensor Data) (log : list (Call Data)).
Implicit Types (source style : EncodedFrameOrTensor Data).

Lemma Sequential_app (l1 l2 : list (Layer Data)) x :
  Sequential (l1 ++ l2) x = Sequential l2 (Sequential l1 x).
Proof. unfold Sequential. apply foldl_app. Qed.

(** X2.  The two encoder halves that [load] cuts out of vgg run one after the
    other as the first 44 layers of vgg do; when vgg has no more than 44
    layers that is vgg itself. *)
Theorem load_encoder_halves (style_model : StyleModel Data) (dev : Device) x :
  let self := load style_model dev in
  enc_5 self (enc_1_to_4 self x)
    = Sequential (take 44 (make_vgg style_model)) x
  ∧ (length (make_vgg style_model) ≤ 44 →
     enc_5 self (enc_1_to_4 self x) = vgg self x).
Proof.
  cbn [load enc_5 enc_1_to_4 vgg].
  rewrite <- Sequential_app, take_take_drop.
  split; [done |]. intros Hlen. by rewrite take_ge by done.
Qed.

(** What [encode_frame] returns and adds to the call log, for any input. *)
Lemma encode_frame_encoded_input self (x : EncodedFrameOrTensor Data) log :
  ∃ calls,
    encode_frame self x log = (Ok (encoded_input self x), log ++ calls)
    ∧ encoder_calls calls = 2 * is_raw x
    ∧ length calls = 2 * is_raw x.
Proof.
  destruct x as [f | t].
  - exists []. rewrite app_nil_r. cbn. by case_decide.
  - eexists. split; [apply encode_frame_raw | done].
Qed.

(** What [apply] returns and adds to the call log. *)
Lemma apply_applied self source style log :
  ∃ calls,
    apply self source style log = (Ok (applied self source style), log ++ calls)
    ∧ encoder_calls calls = 2 * (is_raw source + is_raw style)
    ∧ length calls = 2 * (is_raw source + is_raw style) + 2.
Proof.
  destruct (encode_frame_encoded_input self source log)
    as (cs & Hs & Hes & Hls).
  destruct (encode_frame_encoded_input self style (log ++ cs))
    as (cy & Hy & Hey & Hly).
  eexists (cs ++ cy ++ [_; _]). split; [| split].
  - unfold apply, mbind, M_bind. rewrite Hs, Hy.
    unfold run_transform, run_decoder, mret, M_ret, detach, applied.
    by rewrite <- !app_assoc.
  - rewrite !encoder_calls_app, Hes, Hey.
    match goal with |- context [encoder_calls [?a; ?b]] =>
      change (encoder_calls [a; b]) with 0 end.
    lia.
  - rewrite !length_app, Hls, Hly. cbn [length]. lia.
Qed.

(** X3.  A frame that has gone through [encode_frame] is left alone by a second
    pass on the same runner: the second call returns it as it is and
    records no call. *)
Theorem encode_frame_twice self f log :
  ∃ fr,
    encode_frame self (Frame f) log = (Ok fr, log)
    ∧ encode_frame self (Frame fr) log = (Ok fr, log).
Proof.
  destruct (decide (t_device (e4 f) = device self)) as [Hd | Hd].
  - exists f. cbn. by rewrite decide_True by done.
  - exists (mkEncodedFrame (as_tensor (e4 f) (device self))
                           (as_tensor (e5 f) (device self))).
    cbn [encode_frame e4]. rewrite decide_False by done.
    by rewrite decide_True by apply as_tensor_device.
Qed.


(** X5.  Passing the frame that [encode_frame] made of a raw style tensor gives
    the same result as passing the raw tensor, and saves the two encoder
    calls, provided the encoder front leaves its output on the runner's
    device. *)
Theorem apply_cached_style self source t log :
  t_device (enc_1_to_4 self (unsqueeze0 (as_tensor t (device self))))
    = device self →
  (apply self source (Frame (encoded self t)) log).1
    = (apply self source (Raw t) log).1
  ∧ encoder_calls (apply self source (Raw t) log).2
    = encoder_calls (apply self source (Frame (encoded self t)) log).2 + 2.
Proof.
  intros Hdev.
  destruct (apply_applied self source (Frame (encoded self t)) log)
    as (c1 & -> & He1 & _).
  destruct (apply_applied self source (Raw t) log) as (c2 & -> & He2 & _).
  cbn [fst snd]. split.
  - assert (encoded_input self (Frame (encoded self t)) = encoded self t)
      as Hsame by (cbn [encoded_input]; by rewrite decide_True by exact Hdev).
    unfold applied. by rewrite Hsame.
  - rewrite !encoder_calls_app, He1, He2. cbn [is_raw]. lia.
Qed.

End Runner.

Lemma apply_cached_style_witness :
  t_device (enc_1_to_4 Demo.runner
              (unsqueeze0 (as_tensor Demo.raw (device Demo.runner))))
    = device Demo.runner
  ∧ (apply Demo.runner (Frame Demo.frame_cuda0)
       (Frame (encoded Demo.runner Demo.raw)) []).1
    = (apply Demo.runner (Frame Demo.frame_cuda0) (Raw Demo.raw) []).1.
Proof.
  split; [reflexivity |].
  exact (proj1 (apply_cached_style Demo.runner (Frame Demo.frame_cuda0)
                  Demo.raw [] eq_refl)).
Defined.

(** ** The worker loop *)

Section Worker.

Context {Data : Type}.
Implicit Types (model_runner : StyleRunner Data) (job : Obj Data).
Implicit Types (polls rest : list (option (Obj Data))).
Implicit Types (log : list (Call Data)) (out : list (Obj Data)).
Implicit Types (source style : EncodedFrameOrTensor Data).

Lemma size_source_style :
  size ({["source"; "style"]} : gset string) = 2.
Proof.
  rewrite size_union, !size_singleton; [done |].
  apply disjoint_singleton_l. by rewrite elem_of_singleton.
Qed.

(** X6.  The call of [apply] with a dictionary unpacked as keyword arguments
    gets through exactly when the keys of the dictionary are [source] and
    [style]; with any other key set it raises [TypeError] and calls no
    stage. *)
Theorem apply_kwargs_keys model_runner
    (kwargs : gmap string (EncodedFrameOrTensor Data)) log :
  ((∃ r log', apply_kwargs model_runner (Dict kwargs) log = (Ok r, log'))
     ↔ dom kwargs = {["source"; "style"]})
  ∧ (dom kwargs ≠ {["source"; "style"]} →
     apply_kwargs model_runner (Dict kwargs) log = (Raise TypeError, log)).
Proof.
  assert (dom kwargs = {["source"; "style"]} →
          ∃ source style, kwargs !! "source" = Some source
            ∧ kwargs !! "style" = Some style ∧ size kwargs = 2) as Hdom.
  { intros Hd.
    assert (is_Some (kwargs !! "source")) as [source Hs]
      by (apply elem_of_dom; rewrite Hd; set_solver).
    assert (is_Some (kwargs !! "style")) as [style Hy]
      by (apply elem_of_dom; rewrite Hd; set_solver).
    exists source, style. split; [done |]. split; [done |].
    by rewrite <- size_dom, Hd, size_source_style. }
  assert (∀ source style, kwargs !! "source" = Some source →
            kwargs !! "style" = Some style → size kwargs = 2 →
            dom kwargs = {["source"; "style"]}) as Hkeys.
  { intros source style Hs Hy Hsize. symmetry.
    apply set_subseteq_size_eq.
    - intros k Hk. apply elem_of_dom.
      apply elem_of_union in Hk as [Hk | Hk];
        apply elem_of_singleton in Hk as ->; by eexists.
    - by rewrite size_dom, Hsize, size_source_style. }
  split; [split |].
  - intros (r & log' & Hrun). cbn in Hrun.
    destruct (kwargs !! "source") as [source |] eqn:Hs; [| done].
    destruct (kwargs !! "style") as [style |] eqn:Hy; [| done].
    case_decide; [| done]. by eapply Hkeys.
  - intros (source & style & Hs & Hy & Hsize)%Hdom. cbn.
    rewrite Hs, Hy, decide_True by done.
    destruct (apply_applied model_runner source style log) as (c & -> & _).
    by eexists _, _.
  - intros Hne. cbn.
    destruct (kwargs !! "source") as [source |] eqn:Hs; [| done].
    destruct (kwargs !! "style") as [style |] eqn:Hy; [| done].
    case_decide; [| done]. destruct Hne. by eapply Hkeys.
Qed.

(** X7.  The worker's result does not depend on the time-outs between the items
    it dequeues. *)
Theorem model_run_ignores_timeouts model_runner polls out log :
  model_run model_runner polls out log
    = model_run model_runner (Some <$> dequeued polls) out log.
Proof.
  revert out log. induction polls as [| [j |] polls IH]; intros out log.
  - done.
  - cbn. destruct (eq_Halt j); [done |].
    destruct (apply_kwargs model_runner j log) as [[r | e] log']; [| done].
    apply IH.
  - cbn. apply IH.
Qed.

(** X8.  Whatever the worker is handed, what it adds to its output queue is a
    row of result tensors, followed by one [Halt] exactly when it left its
    loop on the sentinel: [Halt] is put at most once, as the last item. *)
Theorem model_run_output_form model_runner polls out log :
  ∃ results : list (Tensor Data),
    (model_run model_runner polls out log).1.2
      = out ++ (TensorObj <$> results)
            ++ match (model_run model_runner polls out log).1.1 with
               | Finished => [Halt]
               | Polling | Raised _ => []
               end.
Proof.
  revert out log. induction polls as [| [j |] polls IH]; intros out log.
  - exists []. cbn. by rewrite app_nil_r.
  - cbn. destruct (eq_Halt j); [by exists [] |].
    destruct (apply_kwargs model_runner j log) as [[r | e] log'].
    + destruct (IH (out ++ [TensorObj r]) log') as [results Hres].
      exists (r :: results). rewrite Hres. by rewrite <- app_assoc.
    + exists []. cbn. by rewrite app_nil_r.
  - cbn. apply IH.
Qed.

Lemma apply_kwargs_job_of model_runner source style log :
  ∃ log', apply_kwargs model_runner (job_of source style) log
          = (Ok (applied model_runner source style), log').
Proof.
  destruct (apply_applied model_runner source style log) as (c & Hrun & _).
  exists (log ++ c). by rewrite <- Hrun.
Qed.

(** A worker handed well-formed jobs answers each of them, in order. *)
Lemma model_run_jobs model_runner
    (pairs : list (EncodedFrameOrTensor Data * EncodedFrameOrTensor Data)) :
  ∀ polls, dequeued polls = (λ '(s, y), job_of s y) <$> pairs →
  ∀ out log, ∃ log',
    model_run model_runner polls out log
      = (Polling,
         out ++ ((λ '(s, y), TensorObj (applied model_runner s y)) <$> pairs),
         log')
    ∧ ∀ rest, model_run model_runner (polls ++ Some Halt :: rest) out log
      = (Finished,
         out ++ ((λ '(s, y), TensorObj (applied model_runner s y)) <$> pairs)
             ++ [Halt],
         log').
Proof.
  intros polls. revert pairs.
  induction polls as [| [j |] polls IH]; intros pairs Hdeq out log.
  - destruct pairs; [| done]. exists log. cbn. by rewrite !app_nil_r.
  - destruct pairs as [| [s y] pairs]; [done |].
    cbn in Hdeq. injection Hdeq as -> Hdeq.
    destruct (apply_kwargs_job_of model_runner s y log) as [log1 Happ].
    destruct (IH pairs Hdeq (out ++ [TensorObj (applied model_runner s y)]) log1)
      as (log' & Hrun & Hhalt).
    exists log'. cbn [app model_run fmap list_fmap].
    change (eq_Halt (job_of s y)) with false. cbv iota. rewrite Happ.
    split; [| intros rest]; [rewrite Hrun | rewrite Hhalt];
      by rewrite <- !app_assoc.
  - cbn. by apply IH.
Qed.

(** X9.  Handed well-formed jobs (time-outs in between) and then [Halt], the
    worker leaves its loop with one result per job on its output queue, in
    the order of the jobs, and [Halt] after them; what is polled after
    [Halt] is not looked at. *)
Theorem model_run_jobs_then_Halt model_runner
    (pairs : list (EncodedFrameOrTensor Data * EncodedFrameOrTensor Data))
    polls rest log :
  dequeued polls = (λ '(s, y), job_of s y) <$> pairs →
  ∃ log',
    model_run model_runner (polls ++ Some Halt :: rest) [] log
      = (Finished,
         ((λ '(s, y), TensorObj (applied model_runner s y)) <$> pairs)
           ++ [Halt],
         log').
Proof.
  intros Hdeq.
  destruct (model_run_jobs model_runner pairs polls Hdeq [] log)
    as (log' & _ & Hhalt).
  exists log'. apply Hhalt.
Qed.

End Worker.

Lemma model_run_jobs_then_Halt_witness :
  dequeued [Some (job_of (Raw Demo.raw) (Frame Demo.frame_cuda0)); None]
    = (λ '(s, y), job_of s y) <$> [(Raw Demo.raw, Frame Demo.frame_cuda0)]
  ∧ ∃ log',
      model_run Demo.runner
        ([Some (job_of (Raw Demo.raw) (Frame Demo.frame_cuda0)); None]
           ++ Some Halt :: [Some Demo.job2]) [] []
      = (Finished,
         [TensorObj (applied Demo.runner (Raw Demo.raw)
                       (Frame Demo.frame_cuda0)); Halt],
         log').
Proof.
  split; [reflexivity |].
  exact (model_run_jobs_then_Halt Demo.runner
           [(Raw Demo.raw, Frame Demo.frame_cuda0)]
           [Some (job_of (Raw Demo.raw) (Frame Demo.frame_cuda0)); None]
           [Some Demo.job2] [] eq_refl).
Defined.

(** ** The dispatcher and the collector *)

Section Pool.

Context {Data : Type}.
Implicit Types (job : Obj Data) (jobs : list (Obj Data)).
Implicit Types (polls rest : list (option (Obj Data))).
Implicit Types (q out : list (Obj Data)) (qs : list (list (Obj Data))).

(** X10.  The dispatcher's result does not depend on the time-outs between the
    items it dequeues. *)
Theorem push_loop_ignores_timeouts polls (idx : nat) qs :
  push_loop polls idx qs = push_loop (Some <$> dequeued polls) idx qs.
Proof.
  revert idx qs. induction polls as [| [j |] polls IH]; intros idx qs.
  - done.
  - cbn. destruct (eq_Halt j); [done |].
    destruct (qs !! idx); [apply IH | done].
  - cbn. apply IH.
Qed.

(** X11.  With an empty list of runners there is no queue to index: the first
    job the dispatcher dequeues raises [IndexError]. *)
Theorem push_run_no_workers polls job jobs :
  dequeued polls = job :: jobs →
  eq_Halt job = false →
  push_run polls [] = (Raised IndexError, []).
Proof.
  unfold push_run. induction polls as [| [j |] polls IH]; intros Hdeq Hjob.
  - done.
  - cbn in Hdeq. injection Hdeq as -> _. cbn. by rewrite Hjob.
  - cbn. by apply IH.
Qed.

(** X12.  The dispatcher never changes the number of worker queues and only adds
    at the end of a queue: what was on a queue stays there, in place. *)
Theorem push_loop_appends polls (idx : nat) qs :
  length (push_loop polls idx qs).2 = length qs
  ∧ ∀ k q, qs !! k = Some q →
      ∃ q', (push_loop polls idx qs).2 !! k = Some (q ++ q').
Proof.
  revert idx qs. induction polls as [| [j |] polls IH]; intros idx qs.
  - split; [done |]. intros k q Hk. exists []. by rewrite app_nil_r.
  - cbn. destruct (eq_Halt j).
    { split; [done |]. intros k q Hk. exists []. by rewrite app_nil_r. }
    destruct (qs !! idx) as [qi |] eqn:Hqi.
    2: { split; [done |]. intros k q Hk. exists []. by rewrite app_nil_r. }
    destruct (IH ((idx + 1) `mod` length qs) (<[idx := qi ++ [j]]> qs))
      as [Hlen Happ].
    split; [by rewrite Hlen, length_insert |].
    intros k q Hk. destruct (decide (k = idx)) as [-> | Hne].
    + assert (q = qi) as -> by congruence.
      destruct (Happ idx (qi ++ [j])) as [q' Hq'].
      { apply list_lookup_insert_eq. by eapply lookup_lt_Some. }
      exists ([j] ++ q'). by rewrite Hq', <- app_assoc.
    + apply Happ. by rewrite list_lookup_insert_ne.
  - cbn. apply IH.
Qed.

Lemma length_concat_insert_snoc qs (i : nat) q job :
  qs !! i = Some q →
  length (concat (<[i := q ++ [job]]> qs)) = S (length (concat qs)).
Proof.
  revert i. induction qs as [| q0 qs IH]; intros [| i] Hi; try done.
  - cbn in Hi. injection Hi as ->. cbn. rewrite !length_app. cbn. lia.
  - cbn in Hi.
    change (<[S i := q ++ [job]]> (q0 :: qs))
      with (q0 :: <[i := q ++ [job]]> qs).
    cbn [concat]. rewrite !length_app, (IH i Hi). lia.
Qed.

Lemma push_loop_conserves (W : nat) polls :
  ∀ jobs idx qs,
    dispatched W jobs idx qs →
    Forall (λ job, eq_Halt job = false) (dequeued polls) →
    length (concat (push_loop polls idx qs).2)
      = length (concat qs) + length (dequeued polls).
Proof.
  induction polls as [| [j |] polls IH]; intros jobs idx qs Hinv Hjobs.
  - cbn. lia.
  - cbn in Hjobs. apply Forall_cons in Hjobs as [Hj Hjobs].
    destruct (dispatched_step W jobs idx qs j Hinv) as (q & Hq & Hinv').
    cbn [push_loop]. rewrite Hj, Hq. rewrite (IH _ _ _ Hinv' Hjobs).
    rewrite (length_concat_insert_snoc _ _ _ _ Hq).
    change (dequeued (Some j :: polls)) with (j :: dequeued polls).
    cbn [length]. lia.
  - cbn. by eapply IH.
Qed.

(** X13.  While jobs arrive, the dispatcher loses and duplicates nothing and
    keeps the load even: the worker queues together hold as many items as
    jobs were dequeued, a queue never holds more than a queue before it in
    the rotation, and no two queues differ by more than one item. *)
Theorem push_run_balanced (W : nat) jobs polls :
  1 ≤ W →
  dequeued polls = jobs →
  Forall (λ job, eq_Halt job = false) jobs →
  ∃ qs,
    push_run polls (replicate W []) = (Polling, qs)
    ∧ length (concat qs) = length jobs
    ∧ ∀ k1 k2 q1 q2, k1 ≤ k2 → qs !! k1 = Some q1 → qs !! k2 = Some q2 →
        length q2 ≤ length q1 ≤ S (length q2).
Proof.
  intros HW Hdeq Hjobs. rewrite <- Hdeq in Hjobs.
  pose proof (dispatched_init (Data := Data) W HW) as Hinit.
  destruct (push_loop_dispatched W polls [] 0 (replicate W []) [] Hinit Hjobs)
    as (idx' & qs & _ & Hrun & Hinv).
  exists qs. split; [exact Hrun |]. split.
  - pose proof (push_loop_conserves W polls _ _ _ Hinit Hjobs) as Hc.
    rewrite Hrun in Hc. cbn [snd] in Hc. rewrite Hc, <- Hdeq.
    assert (concat (replicate W ([] : list (Obj Data))) = []) as ->; [| done].
    clear. induction W as [| W IH]; [done | exact IH].
  - destruct Hinv as (_ & _ & c & _ & Hqs).
    intros k1 k2 q1 q2 Hk Hq1 Hq2.
    destruct (Hqs k1 q1 Hq1) as [Hl1 _]. destruct (Hqs k2 q2 Hq2) as [Hl2 _].
    rewrite Hl1, Hl2. repeat case_decide; lia.
Qed.

(** X14.  The collector never forwards anything: with no worker queue it leaves
    its loop at once, and with any worker queue, whatever the queues hold,
    its first iteration raises [AttributeError]; in both cases the shared
    output queue and the working set are as they were. *)
Theorem pull_run_never_forwards (fuel : nat) qs out :
  (pull_run fuel qs out).2 = out
  ∧ (pull_run fuel qs out).1.2 = qs
  ∧ (qs = [] → (pull_run (S fuel) qs out).1.1 = Finished)
  ∧ (qs ≠ [] → (pull_run (S fuel) qs out).1.1 = Raised AttributeError).
Proof.
  unfold pull_run. split; [apply pull_loop_output |].
  split; [apply pull_loop_output |]. split.
  - by intros ->.
  - intros Hne. by rewrite pull_loop_raises.
Qed.

End Pool.

Lemma push_run_no_workers_witness :
  dequeued [None; Some Demo.job; Some Demo.job2] = [Demo.job; Demo.job2]
  ∧ eq_Halt Demo.job = false
  ∧ push_run [None; Some Demo.job; Some Demo.job2] []
      = (Raised IndexError, []).
Proof.
  split; [reflexivity |]. split; [reflexivity |].
  exact (push_run_no_workers [None; Some Demo.job; Some Demo.job2]
           Demo.job [Demo.job2] eq_refl eq_refl).
Defined.

Lemma push_run_balanced_witness :
  1 ≤ 2
  ∧ dequeued [Some Demo.job; None; Some Demo.job2; Some Demo.job_no_style]
      = [Demo.job; Demo.job2; Demo.job_no_style]
  ∧ Forall (λ job, eq_Halt job = false)
      [Demo.job; Demo.job2; Demo.job_no_style]
  ∧ ∃ qs,
      push_run [Some Demo.job; None; Some Demo.job2; Some Demo.job_no_style]
               (replicate 2 [])
        = (Polling, qs)
      ∧ length (concat qs) = 3.
Proof.
  assert (Forall (λ job : Obj nat, eq_Halt job = false)
            [Demo.job; Demo.job2; Demo.job_no_style]) as Hjobs
    by (repeat constructor).
  split; [lia |]. split; [reflexivity |]. split; [exact Hjobs |].
  destruct (push_run_balanced 2 [Demo.job; Demo.job2; Demo.job_no_style]
              [Some Demo.job; None; Some Demo.job2; Some Demo.job_no_style]
              (le_S 1 1 (le_n 1)) eq_refl Hjobs)
    as (qs & Hrun & Hlen & _).
  exists qs. split; [exact Hrun | exact Hlen].
Defined.

(** ** Start-up *)

Section StartupMore.

Context {Data Image : Type}.
Context (imread : string → option Image) (shape : Image → Z * Z)
        (slice : Image → Z → Z → Z → Z → Image)
        (resize : Image → Z * Z → Image)
        (cvtColor_BGR2RGB : Image → Image) (to_tensor : Image → Tensor Data)
        (read_config : string → option (gmap string (list string)))
        (style_model : StyleModel Data).

#[local] Instance str_le_total : Total str_le.
Proof. intros x y. apply String.leb_total. Qed.

(** X15.  [sorted(set(names))]: the names in ascending order, each once. *)
Theorem sorted_set_sorted (names : list string) :
  Sorted str_le (sorted_set names)
  ∧ NoDup (sorted_set names)
  ∧ ∀ name, name ∈ sorted_set names ↔ name ∈ names.
Proof.
  split; [apply Sorted_merge_sort, _ |]. split; [| apply sorted_set_elem].
  unfold sorted_set. rewrite merge_sort_Permutation. apply NoDup_elements.
Qed.

Lemma length_sorted_set (names : list string) :
  length (sorted_set names) = size (list_to_set names : gset string).
Proof. unfold sorted_set. by rewrite merge_sort_Permutation. Qed.

(** A loop whose body succeeds on every element, with the encoder calls it
    records counted. *)
Lemma for_each_calls {A S : Type} (xs : list A) (body : S → A → M Data S)
    (step : S → A → S) (n : nat) :
  (∀ s x log, x ∈ xs →
     ∃ calls, body s x log = (Ok (step s x), log ++ calls)
              ∧ encoder_calls calls = n) →
  ∀ s log, ∃ calls,
    for_each xs body s log = (Ok (foldl step s xs), log ++ calls)
    ∧ encoder_calls calls = length xs * n.
Proof.
  induction xs as [| x xs IH]; intros Hbody s log.
  - exists []. by rewrite app_nil_r.
  - destruct (Hbody s x log) as (c1 & H1 & Hn1); [left |].
    destruct (IH (λ s y l Hy, Hbody s y l (list_elem_of_further _ _ _ Hy))
                 (step s x) (log ++ c1)) as (c2 & H2 & Hn2).
    exists (c1 ++ c2). split.
    + cbn. rewrite (bind_Ok _ _ log _ _ H1), H2. by rewrite <- app_assoc.
    + rewrite encoder_calls_app, Hn1, Hn2. cbn [length]. lia.
Qed.

(** A loop stops with the exception of the first element its body raises
    on. *)
Lemma for_each_raises {A S : Type} (xs : list A) (body : S → A → M Data S)
    (bad : A → Prop) (e : exn) :
  (∀ s x log, x ∈ xs → ¬ bad x → ∃ s' log', body s x log = (Ok s', log')) →
  (∀ s x log, x ∈ xs → bad x → ∃ log', body s x log = (Raise e, log')) →
  (∀ x, x ∈ xs → bad x ∨ ¬ bad x) →
  (∃ x, x ∈ xs ∧ bad x) →
  ∀ s log, ∃ log', for_each xs body s log = (Raise e, log').
Proof.
  induction xs as [| x xs IH]; intros Hok Hbad Hdec (x0 & Hin & Hx0) s log.
  - by apply elem_of_nil in Hin.
  - destruct (Hdec x) as [Hx | Hx]; [left | |].
    + destruct (Hbad s x log) as [log' Hrun]; [left | done |].
      exists log'. cbn. unfold mbind, M_bind. by rewrite Hrun.
    + destruct (Hok s x log) as (s' & log1 & Hrun); [left | done |].
      apply elem_of_cons in Hin as [-> | Hin]; [done |].
      destruct (IH (λ s y l Hy, Hok s y l (list_elem_of_further _ _ _ Hy))
                   (λ s y l Hy, Hbad s y l (list_elem_of_further _ _ _ Hy))
                   (λ y Hy, Hdec y (list_elem_of_further _ _ _ Hy))
                   (ex_intro _ x0 (conj Hin Hx0)) s' log1) as [log' Hrest].
      exists log'. cbn. by rewrite (bind_Ok _ _ log _ _ Hrun).
Qed.

(** The style cache map [main] builds, in closed form, and the encoder
    calls it takes. *)
Lemma main_closed_form (args : Args) (cfg : gmap string (list string))
    (styles : list string) (log : list (Call Data)) :
  read_config (style_config args) = Some cfg →
  cfg !! "styles" = Some styles →
  (∀ path, path ∈ styles → is_Some (imread path)) →
  ∃ calls,
    main imread shape slice resize cvtColor_BGR2RGB to_tensor read_config
         style_model args log
    = (Ok (foldl (λ m path,
                    <[path :=
                        match imread path with
                        | Some img =>
                            foldl (λ (e : gmap string (EncodedFrame Data)) n,
                                     <[n := encoded (load style_model n)
                                              (preprocessed shape slice resize
                                                 cvtColor_BGR2RGB to_tensor img)]> e)
                                  ∅ (sorted_set (style_devices args))
                        | None => ∅
                        end]> m)
                 ∅ styles),
       log ++ calls)
    ∧ encoder_calls calls
      = length styles * (length (sorted_set (style_devices args)) * 2).
Proof.
  intros Hcfg Hstyles Hread.
  set (names := sorted_set (style_devices args)).
  set (tensor := preprocessed shape slice resize cvtColor_BGR2RGB to_tensor).
  set (entry_of := λ t : Tensor Data,
         foldl (λ (e : gmap string (EncodedFrame Data)) n,
                  <[n := encoded (load style_model n) t]> e) ∅ names).
  set (step := λ (m : gmap string (gmap string (EncodedFrame Data))) path,
         <[path := match imread path with
                   | Some img => entry_of (tensor img)
                   | None => ∅
                   end]> m).
  unfold main. rewrite Hcfg. fold names.
  rewrite (bind_Ok _ _ log styles log) by (by apply getitem_Some).
  match goal with |- context [for_each styles ?b ∅ log] =>
    destruct (for_each_calls styles b step (length names * 2)) with
      (s := (∅ : gmap string (gmap string (EncodedFrame Data)))) (log := log)
      as (calls & Hrun & Hn) end.
  { intros m path l Hpath. destruct (Hread path Hpath) as [img Himg].
    unfold step.
    rewrite (bind_Ok _ _ l (tensor img) l)
      by (unfold load_image_for_style; by rewrite Himg).
    match goal with |- context [for_each _ ?b ∅] =>
      destruct (for_each_calls ((λ name, (name, name)) <$> names) b
                  (λ e '(n, _),
                     <[n := encoded (load style_model n) (tensor img)]> e) 2)
        with (s := (∅ : gmap string (EncodedFrame Data))) (log := l)
        as (c & Hinner & Hc) end.
    { intros e [n dev] l0 [n' [[= -> ->] Hn]]%list_elem_of_fmap.
      eexists. split.
      - rewrite (bind_Ok _ _ l0 (load style_model n') l0)
          by (by apply getitem_Some, style_runners_lookup).
        rewrite (bind_Ok _ _ l0 _ _
                   (encode_frame_raw (load style_model n') (tensor img) l0)).
        reflexivity.
      - reflexivity. }
    exists c. rewrite (bind_Ok _ _ l _ _ Hinner).
    rewrite foldl_fmap, Himg. split; [done |].
    by rewrite Hc, length_fmap. }
  exists calls. by rewrite Hrun.
Qed.

(** X16.  Start-up keeps one entry per distinct style path: a path listed more
    than once in the configuration takes one place in the style cache
    map. *)
Theorem main_paths_collapse (args : Args) (cfg : gmap string (list string))
    (styles : list string) (log : list (Call Data)) :
  read_config (style_config args) = Some cfg →
  cfg !! "styles" = Some styles →
  (∀ path, path ∈ styles → is_Some (imread path)) →
  ∃ style_device_map log',
    main imread shape slice resize cvtColor_BGR2RGB to_tensor read_config
         style_model args log = (Ok style_device_map, log')
    ∧ dom style_device_map = list_to_set styles
    ∧ size style_device_map = size (list_to_set styles : gset string).
Proof.
  intros Hcfg Hstyles Hread.
  destruct (main_closed_form args cfg styles log Hcfg Hstyles Hread)
    as (calls & Hrun & _).
  eexists _, _. split; [exact Hrun |].
  match goal with |- context [foldl ?f ∅ styles] =>
    assert (dom (foldl f ∅ styles) = list_to_set styles) as Hdom end.
  { match goal with |- context [foldl (λ m p, <[p := @?g p]> m) ∅ styles] =>
      rewrite (foldl_insert_dom g) end.
    by rewrite dom_empty_L, (left_id_L ∅ (∪)). }
  split; [exact Hdom |]. by rewrite <- size_dom, Hdom.
Qed.

(** X17.  Start-up runs the two encoder stages once for every listed style path
    and every distinct device name. *)
Theorem main_encoder_calls (args : Args) (cfg : gmap string (list string))
    (styles : list string) (log : list (Call Data)) :
  read_config (style_config args) = Some cfg →
  cfg !! "styles" = Some styles →
  (∀ path, path ∈ styles → is_Some (imread path)) →
  encoder_calls
    (main imread shape slice resize cvtColor_BGR2RGB to_tensor read_config
          style_model args log).2
  = encoder_calls log
    + 2 * (length styles
           * size (list_to_set (style_devices args) : gset string)).
Proof.
  intros Hcfg Hstyles Hread.
  destruct (main_closed_form args cfg styles log Hcfg Hstyles Hread)
    as (calls & -> & Hn).
  cbn [snd]. rewrite encoder_calls_app, Hn, length_sorted_set. lia.
Qed.

(** X18.  A configuration that cannot be opened or parsed makes [main] raise
    [ValueError] before any style is loaded. *)
Theorem main_config_unreadable (args : Args) (log : list (Call Data)) :
  read_config (style_config args) = None →
  main imread shape slice resize cvtColor_BGR2RGB to_tensor read_config
       style_model args log = (Raise ValueError, log).
Proof. intros Hcfg. unfold main. by rewrite Hcfg. Qed.

(** X19.  A configuration without the key [styles] makes [main] raise
    [KeyError]. *)
Theorem main_config_without_styles (args : Args)
    (cfg : gmap string (list string)) (log : list (Call Data)) :
  read_config (style_config args) = Some cfg →
  cfg !! "styles" = None →
  main imread shape slice resize cvtColor_BGR2RGB to_tensor read_config
       style_model args log = (Raise KeyError, log).
Proof.
  intros Hcfg Hstyles. unfold main. rewrite Hcfg.
  unfold mbind, M_bind, getitem. by rewrite Hstyles.
Qed.

(** X20.  One style image that cannot be read makes [main] raise
    [AttributeError]: no style cache map is built, whatever the other
    paths are. *)
Theorem main_style_unreadable (args : Args) (cfg : gmap string (list string))
    (styles : list string) (path : string) (log : list (Call Data)) :
  read_config (style_config args) = Some cfg →
  cfg !! "styles" = Some styles →
  path ∈ styles →
  imread path = None →
  ∃ log',
    main imread shape slice resize cvtColor_BGR2RGB to_tensor read_config
         style_model args log = (Raise AttributeError, log').
Proof.
  intros Hcfg Hstyles Hin Hnone.
  set (names := sorted_set (style_devices args)).
  unfold main. rewrite Hcfg. fold names.
  rewrite (bind_Ok _ _ log styles log) by (by apply getitem_Some).
  match goal with |- context [for_each styles ?b ∅ log] =>
    apply (for_each_raises styles b (λ p, imread p = None)) end.
  - intros m p l _ Hp. destruct (imread p) as [img |] eqn:Himg; [| done].
    rewrite (bind_Ok _ _ l (to_tensor _) l)
      by (unfold load_image_for_style; by rewrite Himg).
    match goal with |- context [for_each _ ?b ∅] =>
      destruct (for_each_ok ((λ name, (name, name)) <$> names) b
                  (λ e '(n, _),
                     <[n := encoded (load style_model n)
                              (preprocessed shape slice resize
                                 cvtColor_BGR2RGB to_tensor img)]> e))
        with (s := (∅ : gmap string (EncodedFrame Data))) (log := l)
        as [l' Hinner] end.
    { intros e [n dev] l0 [n' [[= -> ->] Hn]]%list_elem_of_fmap.
      eexists.
      rewrite (bind_Ok _ _ l0 (load style_model n') l0)
        by (by apply getitem_Some, style_runners_lookup).
      by rewrite (bind_Ok _ _ l0 _ _
                    (encode_frame_raw (load style_model n') _ l0)). }
    eexists _, _. by rewrite (bind_Ok _ _ l _ _ Hinner).
  - intros m p l _ Hp. exists l.
    unfold mbind, M_bind, load_image_for_style. by rewrite Hp.
  - intros p _. destruct (imread p); [right | left]; done.
  - by exists path.
Qed.

End StartupMore.

Lemma main_paths_collapse_witness :
  Demo2.read_config (style_config (Demo2.args "dup.json"))
    = Some (<["styles" := ["a.png"; "a.png"; "b.png"]]> ∅)
  ∧ (<["styles" := ["a.png"; "a.png"; "b.png"]]> ∅
       : gmap string (list string)) !! "styles"
      = Some ["a.png"; "a.png"; "b.png"]
  ∧ (∀ path, path ∈ ["a.png"; "a.png"; "b.png"] → is_Some (Demo.imread path))
  ∧ ∃ style_device_map log',
      Demo2.start "dup.json" = (Ok style_device_map, log')
      ∧ size style_device_map = 2.
Proof.
  assert (∀ path, path ∈ ["a.png"; "a.png"; "b.png"] →
            is_Some (Demo.imread path)) as Hread.
  { intros path Hin. repeat (apply elem_of_cons in Hin as [-> | Hin];
      [by eexists |]). by apply elem_of_nil in Hin. }
  split; [reflexivity |]. split; [reflexivity |]. split; [exact Hread |].
  destruct (main_paths_collapse Demo.imread Demo.shape Demo.slice Demo.resize
              Demo.cvtColor_BGR2RGB Demo.to_tensor Demo2.read_config
              Demo.style_model (Demo2.args "dup.json")
              (<["styles" := ["a.png"; "a.png"; "b.png"]]> ∅)
              ["a.png"; "a.png"; "b.png"] [] eq_refl eq_refl Hread)
    as (m & log' & Hrun & _ & Hsize).
  exists m, log'. split; [exact Hrun |]. rewrite Hsize. reflexivity.
Defined.

Lemma main_encoder_calls_witness :
  Demo2.read_config (style_config (Demo2.args "dup.json"))
    = Some (<["styles" := ["a.png"; "a.png"; "b.png"]]> ∅)
  ∧ (<["styles" := ["a.png"; "a.png"; "b.png"]]> ∅
       : gmap string (list string)) !! "styles"
      = Some ["a.png"; "a.png"; "b.png"]
  ∧ (∀ path, path ∈ ["a.png"; "a.png"; "b.png"] → is_Some (Demo.imread path))
  ∧ encoder_calls (Demo2.start "dup.json").2 = 12.
Proof.
  assert (∀ path, path ∈ ["a.png"; "a.png"; "b.png"] →
            is_Some (Demo.imread path)) as Hread.
  { intros path Hin. repeat (apply elem_of_cons in Hin as [-> | Hin];
      [by eexists |]). by apply elem_of_nil in Hin. }
  split; [reflexivity |]. split; [reflexivity |]. split; [exact Hread |].
  unfold Demo2.start.
  rewrite (main_encoder_calls Demo.imread Demo.shape Demo.slice Demo.resize
             Demo.cvtColor_BGR2RGB Demo.to_tensor Demo2.read_config
             Demo.style_model (Demo2.args "dup.json")
             (<["styles" := ["a.png"; "a.png"; "b.png"]]> ∅)
             ["a.png"; "a.png"; "b.png"] [] eq_refl eq_refl Hread).
  reflexivity.
Defined.

Lemma main_config_unreadable_witness :
  Demo2.read_config (style_config (Demo2.args "absent.json")) = None
  ∧ Demo2.start "absent.json" = (Raise ValueError, []).
Proof.
  split; [reflexivity |].
  exact (main_config_unreadable Demo.imread Demo.shape Demo.slice Demo.resize
           Demo.cvtColor_BGR2RGB Demo.to_tensor Demo2.read_config
           Demo.style_model (Demo2.args "absent.json") [] eq_refl).
Defined.

Lemma main_config_without_styles_witness :
  Demo2.read_config (style_config (Demo2.args "nostyles.json"))
    = Some (<["devices" := ["cuda:0"]]> ∅)
  ∧ (<["devices" := ["cuda:0"]]> ∅ : gmap string (list string)) !! "styles"
      = None
  ∧ Demo2.start "nostyles.json" = (Raise KeyError, []).
Proof.
  split; [reflexivity |]. split; [reflexivity |].
  exact (main_config_without_styles Demo.imread Demo.shape Demo.slice
           Demo.resize Demo.cvtColor_BGR2RGB Demo.to_tensor Demo2.read_config
           Demo.style_model (Demo2.args "nostyles.json")
           (<["devices" := ["cuda:0"]]> ∅) [] eq_refl eq_refl).
Defined.

Lemma main_style_unreadable_witness :
  Demo2.read_config (style_config (Demo2.args "bad.json"))
    = Some (<["styles" := ["a.png"; "missing.png"; "b.png"]]> ∅)
  ∧ (<["styles" := ["a.png"; "missing.png"; "b.png"]]> ∅
       : gmap string (list string)) !! "styles"
      = Some ["a.png"; "missing.png"; "b.png"]
  ∧ "missing.png" ∈ ["a.png"; "missing.png"; "b.png"]
  ∧ Demo.imread "missing.png" = None
  ∧ ∃ log', Demo2.start "bad.json" = (Raise AttributeError, log').
Proof.
  assert ("missing.png" ∈ ["a.png"; "missing.png"; "b.png"]) as Hin
    by (right; left).
  split; [reflexivity |]. split; [reflexivity |]. split; [exact Hin |].
  split; [reflexivity |].
  exact (main_style_unreadable Demo.imread Demo.shape Demo.slice Demo.resize
           Demo.cvtColor_BGR2RGB Demo.to_tensor Demo2.read_config
           Demo.style_model (Demo2.args "bad.json")
           (<["styles" := ["a.png"; "missing.png"; "b.png"]]> ∅)
           ["a.png"; "missing.png"; "b.png"] "missing.png" []
           eq_refl eq_refl Hin eq_refl).
Defined.

(** ** Dispatcher and workers together *)

Section Pipeline.

Context {Data : Type}.
Implicit Types (model_runner : StyleRunner Data) (job : Obj Data).
Implicit Types (polls rest : list (option (Obj Data))).
Implicit Types (q out : list (Obj Data)) (qs : list (list (Obj Data))).
Implicit Types
  (pairs : list (EncodedFrameOrTensor Data * EncodedFrameOrTensor Data)).

Lemma job_of_inj (s y s' y' : EncodedFrameOrTensor Data) :
  job_of s y = job_of s' y' → s = s' ∧ y = y'.
Proof.
  unfold job_of. intros Heq.
  pose proof (f_equal (λ o : Obj Data,
                match o with Dict kw => kw !! "source" | _ => None end) Heq)
    as Hs.
  pose proof (f_equal (λ o : Obj Data,
                match o with Dict kw => kw !! "style" | _ => None end) Heq)
    as Hy.
  cbn beta iota in Hs, Hy.
  rewrite !lookup_insert_eq in Hs.
  rewrite lookup_insert_ne, lookup_insert_eq in Hy by done.
  rewrite lookup_insert_ne, lookup_insert_eq in Hy by done.
  split; congruence.
Qed.

Lemma dequeued_Some q : dequeued (Some <$> q) = q.
Proof. induction q as [| x q IH]; [done |]. cbn. f_equal. exact IH. Qed.

Lemma jobs_are_pairs q :
  Forall (λ job, ∃ s y, job = job_of s y) q →
  ∃ pairs, q = (λ '(s, y), job_of s y) <$> pairs.
Proof.
  induction 1 as [| job q (s & y & ->) _ [pairs ->]].
  - by exists [].
  - by exists ((s, y) :: pairs).
Qed.

(** A worker run on a queue of well-formed jobs. *)
Lemma model_run_queue model_runner q :
  Forall (λ job, ∃ s y, job = job_of s y) q →
  ∃ outs log',
    model_run model_runner (Some <$> q) [] [] = (Polling, outs, log')
    ∧ (Halt ∉ outs)
    ∧ ∀ p s y, q !! p = Some (job_of s y) →
        outs !! p = Some (TensorObj (applied model_runner s y)).
Proof.
  intros [pairs ->]%jobs_are_pairs.
  destruct (model_run_jobs model_runner pairs (Some <$> _)
              (dequeued_Some _) [] []) as (log' & Hrun & _).
  eexists _, log'. split; [exact Hrun |]. cbn [app]. split.
  - intros [[s y] [? _]]%list_elem_of_fmap. done.
  - intros p s y Hp. rewrite list_lookup_fmap in Hp |- *.
    destruct (pairs !! p) as [[s' y'] |]; [| done].
    change (Some (job_of s' y') = Some (job_of s y)) in Hp.
    apply (inj Some) in Hp. by apply job_of_inj in Hp as [-> ->].
Qed.

(** X21.  With [W >= 1] runners, well-formed jobs and then [Halt] on the shared
    input queue: the result of job [i] is computed by runner [i mod W] and
    stands at place [i / W] of that worker's output queue.  No worker
    leaves its loop and no worker output queue holds [Halt], since the
    dispatcher hands none on. *)
Theorem round_robin_results (order : list (StyleRunner Data)) pairs
    polls rest :
  1 ≤ length order →
  dequeued polls = (λ '(s, y), job_of s y) <$> pairs →
  ∃ qs,
    push_run (polls ++ Some Halt :: rest) (replicate (length order) [])
      = (Finished, qs)
    ∧ length (worker_runs order qs) = length order
    ∧ (∀ i s y, pairs !! i = Some (s, y) →
         ∃ model_runner run,
           order !! (i `mod` length order) = Some model_runner
           ∧ worker_runs order qs !! (i `mod` length order) = Some run
           ∧ run.1.2 !! (i `div` length order)
             = Some (TensorObj (applied model_runner s y)))
    ∧ (∀ k run, worker_runs order qs !! k = Some run →
         run.1.1 = Polling ∧ Halt ∉ run.1.2).
Proof.
  intros HW Hdeq. set (W := length order) in *.
  set (jobs := (λ '(s, y), job_of s y) <$> pairs) in *.
  assert (Forall (λ job : Obj Data, ∃ s y, job = job_of s y) jobs) as Hwf.
  { subst jobs. apply Forall_fmap, Forall_forall. intros [s y] _. by exists s, y. }
  assert (Forall (λ job : Obj Data, eq_Halt job = false) (dequeued polls))
    as Hnh.
  { rewrite Hdeq. eapply Forall_impl; [exact Hwf |].
    by intros job (s & y & ->). }
  destruct (push_loop_dispatched W polls [] 0 (replicate W []) rest
              (dispatched_init W HW) Hnh) as (idx' & qs & Hrun & _ & Hinv).
  cbn [app] in Hinv. rewrite Hdeq in Hinv.
  assert (length qs = W) as Hlen by apply Hinv.
  assert (∀ k q, qs !! k = Some q →
            Forall (λ job : Obj Data, ∃ s y, job = job_of s y) q) as Hq_wf.
  { intros k q Hk. apply Forall_lookup. intros p job Hp.
    rewrite (dispatched_lookup W jobs idx' qs k q p Hinv Hk) in Hp.
    by eapply (Forall_lookup_1 _ _ _ _ Hwf). }
  exists qs. split; [exact Hrun |]. split.
  { unfold worker_runs. rewrite length_zip_with. lia. }
  split.
  - intros i s y Hi.
    assert (i `mod` W < W) as Hlt by (apply Nat.mod_upper_bound; lia).
    destruct (lookup_lt_is_Some_2 order (i `mod` W)) as [r Hr]; [done |].
    destruct (lookup_lt_is_Some_2 qs (i `mod` W)) as [q Hq]; [lia |].
    destruct (model_run_queue r q (Hq_wf _ _ Hq))
      as (outs & log' & Hwork & _ & Hout).
    exists r, (Polling, outs, log'). split; [done |]. split.
    + unfold worker_runs. rewrite lookup_zip_with, Hr. cbn. rewrite Hq. cbn.
      by rewrite Hwork.
    + cbn [fst snd]. apply Hout.
      rewrite (dispatched_lookup W jobs idx' qs _ q _ Hinv Hq).
      replace (i `div` W * W + i `mod` W) with i
        by (pose proof (Nat.div_mod_eq i W); lia).
      subst jobs. by rewrite list_lookup_fmap, Hi.
  - intros k run Hk. unfold worker_runs in Hk.
    apply lookup_zip_with_Some in Hk as (r & q & -> & Hr & Hq).
    destruct (model_run_queue r q (Hq_wf _ _ Hq))
      as (outs & log' & -> & Hno & _).
    done.
Qed.

End Pipeline.

Lemma round_robin_results_witness :
  1 ≤ length [Demo.runner; load Demo.style_model "cuda:1"]
  ∧ dequeued [Some (job_of (Raw Demo.raw) (Frame Demo.frame_cuda0)); None;
              Some (job_of (Frame Demo.frame_cuda1) (Raw Demo.raw))]
    = (λ '(s, y), job_of s y)
        <$> [(Raw Demo.raw, Frame Demo.frame_cuda0);
             (Frame Demo.frame_cuda1, Raw Demo.raw)]
  ∧ ∃ qs,
      push_run
        ([Some (job_of (Raw Demo.raw) (Frame Demo.frame_cuda0)); None;
          Some (job_of (Frame Demo.frame_cuda1) (Raw Demo.raw))]
           ++ Some Halt :: [])
        (replicate (length [Demo.runner; load Demo.style_model "cuda:1"]) [])
      = (Finished, qs)
      ∧ length (worker_runs [Demo.runner; load Demo.style_model "cuda:1"] qs)
        = 2.
Proof.
  split; [cbn; lia |]. split; [reflexivity |].
  destruct (round_robin_results
              [Demo.runner; load Demo.style_model "cuda:1"]
              [(Raw Demo.raw, Frame Demo.frame_cuda0);
               (Frame Demo.frame_cuda1, Raw Demo.raw)]
              [Some (job_of (Raw Demo.raw) (Frame Demo.frame_cuda0)); None;
               Some (job_of (Frame Demo.frame_cuda1) (Raw Demo.raw))]
              [] (le_S 1 1 (le_n 1)) eq_refl)
    as (qs & Hrun & Hlen & _).
  exists qs. split; [exact Hrun | exact Hlen].
Defined.

(** ** A worker that died *)

Section DeadWorker.

Context {Data : Type}.
Implicit Types (model_runner : StyleRunner Data) (job : Obj Data).
Implicit Types (polls : list (option (Obj Data))) (jobs : list (Obj Data)).
Implicit Types (q out : list (Obj Data)) (qs : list (list (Obj Data))).

(** The call of [apply] raises nothing but [TypeError]. *)
Lemma apply_kwargs_raise model_runner job log e log' :
  apply_kwargs model_runner job log = (Raise e, log') → e = TypeError.
Proof.
  destruct job as [| | kwargs | t]; cbn; unfold raise; try congruence.
  destruct (kwargs !! "source") as [source |]; [| congruence].
  destruct (kwargs !! "style") as [style |]; [| congruence].
  case_decide; [| congruence].
  destruct (apply_applied model_runner source style log) as (c & -> & _).
  congruence.
Qed.

(** A worker whose queue holds a job without [source] or [style] at place
    [p] ends with [TypeError] having answered at most [p] jobs. *)
Lemma model_run_dies model_runner
    (kwargs : gmap string (EncodedFrameOrTensor Data)) :
  kwargs !! "source" = None ∨ kwargs !! "style" = None →
  ∀ q (p : nat), q !! p = Some (Dict kwargs) →
  Forall (λ job, eq_Halt job = false) q →
  ∀ out log, ∃ out' log',
    model_run model_runner (Some <$> q) out log
      = (Raised TypeError, out ++ out', log')
    ∧ length out' ≤ p.
Proof.
  intros Hmiss q. induction q as [| j q IH]; intros p Hp Hnh out log; [done |].
  apply Forall_cons in Hnh as [Hj Hnh]. destruct p as [| p].
  - cbn in Hp. injection Hp as ->. exists [], log.
    cbn [fmap list_fmap]. rewrite app_nil_r. split; [| done].
    apply model_run_raise; [done | by apply apply_kwargs_missing].
  - cbn in Hp. cbn [fmap list_fmap model_run]. rewrite Hj.
    destruct (apply_kwargs model_runner j log) as [[r | e] log1] eqn:Happ.
    + destruct (IH p Hp Hnh (out ++ [TensorObj r]) log1)
        as (out' & log' & Hrun & Hlen).
      exists (TensorObj r :: out'), log'. split.
      * change (list_fmap _ _ Some q) with (Some <$> q).
        rewrite Hrun. by rewrite <- app_assoc.
      * cbn [length]. lia.
    + apply apply_kwargs_raise in Happ as ->. exists [], log1.
      rewrite app_nil_r. split; [done | cbn; lia].
Qed.

(** X22.  The dispatcher does not notice a dead worker.  When job [i] lacks
    [source] or [style], worker [i mod W] ends with [TypeError] having put
    at most [i / W] results on its output queue, while every job [j] of
    the same residue, the later ones too, is still put on that worker's
    input queue at place [j / W]: the jobs behind the failing one are
    never answered. *)
Theorem round_robin_dead_worker (order : list (StyleRunner Data)) jobs polls
    (i : nat) (kwargs : gmap string (EncodedFrameOrTensor Data)) :
  1 ≤ length order →
  dequeued polls = jobs →
  Forall (λ job, eq_Halt job = false) jobs →
  jobs !! i = Some (Dict kwargs) →
  kwargs !! "source" = None ∨ kwargs !! "style" = None →
  ∃ qs q run,
    push_run polls (replicate (length order) []) = (Polling, qs)
    ∧ qs !! (i `mod` length order) = Some q
    ∧ (∀ j job, jobs !! j = Some job →
         j `mod` length order = i `mod` length order →
         q !! (j `div` length order) = Some job)
    ∧ worker_runs order qs !! (i `mod` length order) = Some run
    ∧ run.1.1 = Raised TypeError
    ∧ length run.1.2 ≤ i `div` length order.
Proof.
  intros HW Hdeq Hnh Hi Hmiss. set (W := length order) in *.
  rewrite <- Hdeq in Hnh.
  destruct (push_loop_dispatched W polls [] 0 (replicate W []) []
              (dispatched_init W HW) Hnh) as (idx' & qs & _ & Hrun & Hinv).
  cbn [app] in Hinv. rewrite Hdeq in Hinv, Hnh.
  assert (length qs = W) as Hlen by apply Hinv.
  assert (i `mod` W < W) as Hlt by (apply Nat.mod_upper_bound; lia).
  destruct (lookup_lt_is_Some_2 order (i `mod` W)) as [r Hr]; [done |].
  destruct (lookup_lt_is_Some_2 qs (i `mod` W)) as [q Hq]; [lia |].
  assert (∀ j, j `mod` W = i `mod` W → q !! (j `div` W) = jobs !! j) as Hat.
  { intros j Hj.
    rewrite (dispatched_lookup W jobs idx' qs _ q _ Hinv Hq).
    f_equal. pose proof (Nat.div_mod_eq j W). lia. }
  assert (Forall (λ job : Obj Data, eq_Halt job = false) q) as Hq_nh.
  { apply Forall_lookup. intros p job Hp.
    rewrite (dispatched_lookup W jobs idx' qs _ q p Hinv Hq) in Hp.
    by eapply (Forall_lookup_1 _ _ _ _ Hnh). }
  destruct (model_run_dies r kwargs Hmiss q (i `div` W)) with
    (out := ([] : list (Obj Data))) (log := ([] : list (Call Data)))
    as (out' & log' & Hwork & Hout); [by rewrite Hat | done |].
  exists qs, q, (Raised TypeError, out', log').
  split; [exact Hrun |]. split; [exact Hq |]. split.
  { intros j job Hj Hmod. by rewrite Hat. }
  split; [| done].
  unfold worker_runs. rewrite lookup_zip_with, Hr. cbn. rewrite Hq. cbn.
  by rewrite Hwork.
Qed.

End DeadWorker.

Lemma round_robin_dead_worker_witness :
  1 ≤ length [Demo.runner; load Demo.style_model "cuda:1"]
  ∧ dequeued [Some Demo.job_no_style; Some Demo.job; None; Some Demo.job2]
    = [Demo.job_no_style; Demo.job; Demo.job2]
  ∧ Forall (λ job, eq_Halt job = false)
      [Demo.job_no_style; Demo.job; Demo.job2]
  ∧ [Demo.job_no_style; Demo.job; Demo.job2] !! 0
    = Some (Dict (<["source" := Raw Demo.raw]> ∅))
  ∧ ((<["source" := Raw Demo.raw]> ∅
        : gmap string (EncodedFrameOrTensor nat)) !! "source" = None
     ∨ (<["source" := Raw Demo.raw]> ∅
        : gmap string (EncodedFrameOrTensor nat)) !! "style" = None)
  ∧ ∃ qs q run,
      push_run [Some Demo.job_no_style; Some Demo.job; None; Some Demo.job2]
               (replicate 2 [])
        = (Polling, qs)
      ∧ qs !! 0 = Some q
      ∧ q !! 1 = Some Demo.job2
      ∧ worker_runs [Demo.runner; load Demo.style_model "cuda:1"] qs !! 0
        = Some run
      ∧ run.1.1 = Raised TypeError
      ∧ length run.1.2 ≤ 0.
Proof.
  assert (Forall (λ job : Obj nat, eq_Halt job = false)
            [Demo.job_no_style; Demo.job; Demo.job2]) as Hjobs
    by (repeat constructor).
  assert ((<["source" := Raw Demo.raw]> ∅
             : gmap string (EncodedFrameOrTensor nat)) !! "style" = None)
    as Hmiss by reflexivity.
  split; [cbn; lia |]. split; [reflexivity |]. split; [exact Hjobs |].
  split; [reflexivity |]. split; [right; exact Hmiss |].
  destruct (round_robin_dead_worker
              [Demo.runner; load Demo.style_model "cuda:1"]
              [Demo.job_no_style; Demo.job; Demo.job2]
              [Some Demo.job_no_style; Some Demo.job; None; Some Demo.job2]
              0 (<["source" := Raw Demo.raw]> ∅)
              (le_S 1 1 (le_n 1)) eq_refl Hjobs eq_refl (or_intror Hmiss))
    as (qs & q & run & Hrun & Hq & Hat & Hw & Hst & Hlen).
  exists qs, q, run. split; [exact Hrun |]. split; [exact Hq |].
  split; [exact (Hat 2 Demo.job2 eq_refl eq_refl) |].
  split; [exact Hw |]. split; [exact Hst | exact Hlen].
Defined.
